(** * persistence.db.js: a shallow embedding of the persistence engine

    The development follows [src/lib/persistence.db.js]: the value
    converter, the entity factory with its tracked accessors, the metadata
    registry, the identity cache, [save], [flush] and [schemaSync].

    Modelling conventions.
    - JavaScript values are the inductive [value]; numbers are the
      integer-valued ones (no NaN, no fractions), objects are references
      into a heap of entity instances.  A reference outside the heap stands
      for an object that is not an entity instance and has none of the
      properties the code reads.
    - [to_string] prints a number in full, as JavaScript does below 2^53
      (from 1e21 on JavaScript prints an exponent).  A property whose
      statement depends on the text of an id or of a foreign key carries
      the hypothesis [prints_in_full], which bounds the numbers.
    - Objects used as ordered dictionaries ([entityMeta], [meta.fields],
      [meta.hasOne], [trackedObjects], [_dirtyProperties], database rows)
      are association lists in insertion order, which is the order of
      [for ... in] for keys that are not array indices.  Keys are assumed
      not to name members of [Object.prototype].
    - The closure dictionaries [data] and [data_obj] of an instance are
      never enumerated; they are finite maps.
    - Declared field and relation names are assumed distinct from the
      internal properties [_id], [_new], [_type], [_dirtyProperties] and
      [remove] of an instance.
    - A plain assignment to one of these internal names (an initializer
      key on line 292, a row column on line 188) overwrites the property
      in the code.  [instance_set] files such a name with the own
      properties and leaves the record fields as they are, and [read]
      looks only at accessors and own properties; they agree with the code
      on every other name.  The properties of the constructor and of row
      materialization therefore carry the hypotheses [plain_keys] and
      [plain_columns], which exclude the internal names.
    - The relational store driver and the identifier generator are outside
      the source file; the driver is modelled from its contract as a queue
      of pending completions, the generator is a parameter of the world. *)

From Stdlib Require Import ZArith String List Bool Lia.
From stdpp Require Import base option strings gmap list pretty.

Local Open Scope string_scope.

(** ** JavaScript values *)

Abbreviation addr := nat (only parsing).

Inductive value : Type :=
| VUndefined
| VNull
| VBool (b : bool)
| VNum (n : Z)
| VStr (s : string)
| VObj (a : addr).

#[global] Instance value_eq_dec : EqDecision value.
Proof. solve_decision. Defined.

(** [v1 === v2] *)
Definition strict_eq (v1 v2 : value) : bool := bool_decide (v1 = v2).

(** [v == null] *)
Definition loose_eq_null (v : value) : bool :=
  match v with
  | VUndefined | VNull => true
  | _ => false
  end.

(** ToBoolean *)
Definition truthy (v : value) : bool :=
  match v with
  | VUndefined | VNull => false
  | VBool b => b
  | VNum n => negb (n =? 0)%Z
  | VStr s => negb (String.eqb s EmptyString)
  | VObj _ => true
  end.

(** ToString, as used by [+] on strings and by property keys; the text of a
    number is the one of JavaScript below 2^53 *)
Definition to_string (v : value) : string :=
  match v with
  | VUndefined => "undefined"
  | VNull => "null"
  | VBool true => "true"
  | VBool false => "false"
  | VNum n => pretty n
  | VStr s => s
  | VObj _ => "[object Object]"
  end.

(** ** Exceptions and results *)

Inductive type_error : Type :=
| ReadPropertyOfNullish (prop : string)  (* [null.p] or [undefined.p] *)
| NotAFunction.                          (* calling [undefined] *)

Inductive exn : Type :=
| TypeError (t : type_error)  (* raised by the engine *)
| Thrown (v : value).         (* operand of a [throw] statement *)

Inductive result (A : Type) : Type :=
| Ok (x : A)
| Throw (e : exn).
Arguments Ok {A} x.
Arguments Throw {A} e.

#[global] Instance result_ret : MRet result := fun A x => Ok x.
#[global] Instance result_bind : MBind result :=
  fun A B f m => match m with Ok x => f x | Throw e => Throw e end.

(** The string thrown by the getter of a hasOne relation *)
Definition UnresolvedRelation (ref : string) (fk : value) : exn :=
  Thrown (VStr ("Property '" +:+ ref +:+ "' with id: " +:+ to_string fk
                +:+ " not fetched, either prefetch it or fetch it manually.")).

Definition is_UnresolvedRelation (e : exn) : Prop :=
  exists ref fk, e = UnresolvedRelation ref fk.

(** ** Ordered dictionaries *)

Section Dict.
Context {V : Type}.

(** [o[k]] on own properties *)
Fixpoint dict_get (k : string) (o : list (string * V)) : option V :=
  match o with
  | [] => None
  | (k', v) :: o' => if String.eqb k k' then Some v else dict_get k o'
  end.

(** [o[k] = v]: an existing key keeps its place, a new key goes last *)
Fixpoint dict_set (k : string) (v : V) (o : list (string * V))
  : list (string * V) :=
  match o with
  | [] => [(k, v)]
  | (k', v') :: o' =>
      if String.eqb k k' then (k, v) :: o' else (k', v') :: dict_set k v o'
  end.

(** the values in [for ... in] order *)
Definition dict_values (o : list (string * V)) : list V := map snd o.
End Dict.

(** [o[k]] as a value: an absent key reads [undefined] *)
Definition dict_read (k : string) (o : list (string * value)) : value :=
  default VUndefined (dict_get k o).

(** ** Entity instances

    The object [that] built by the [entity] constructor, together with the
    closure variables [data] and [data_obj] its accessors share. *)

Record instance : Type := {
  _id : value;
  _new : bool;
  _type : string;
  _dirtyProperties : list string;   (* keys of the object, all mapped to [true] *)
  data : gmap string value;
  data_obj : gmap string value;     (* references to objects *)
  fieldAccessors : list string;     (* names given a field setter and getter *)
  hasOneAccessors : list string;    (* names given a hasOne setter and getter *)
  ownProps : gmap string value      (* own properties made by plain assignment *)
}.

Abbreviation heap := (list instance) (only parsing).

(** [that._dirtyProperties[f] = true] *)
Definition mark_dirty (f : string) (d : list string) : list string :=
  if bool_decide (f ∈ d) then d else (d ++ [f])%list.

(** [val._id] *)
Definition read_id (h : heap) (val : value) : result value :=
  match val with
  | VUndefined | VNull => Throw (TypeError (ReadPropertyOfNullish "_id"))
  | VObj a => match h !! a with
              | Some i => Ok (_id i)
              | None => Ok VUndefined
              end
  | _ => Ok VUndefined
  end.

(** ** Value converter *)

(** [persistence.dbValToEntityVal] *)
Definition dbValToEntityVal (val type : value) : value :=
  if strict_eq type (VStr "BOOL") then VBool (strict_eq val (VNum 1))
  else val.

(** [persistence.entityValToDbVal] *)
Definition entityValToDbVal (h : heap) (val type : value) : result value :=
  if strict_eq val VUndefined then Ok VNull
  else
    id ← read_id h val;
    if truthy id then Ok id
    else if strict_eq type (VStr "BOOL")
         then Ok (VNum (if truthy val then 1%Z else 0%Z))
         else Ok val.

(** ** Accessors installed by the entity constructor *)

(** the setter of a declared field *)
Definition field_set (f : string) (val : value) (i : instance) : instance :=
  {| _id := _id i; _new := _new i; _type := _type i;
     _dirtyProperties := mark_dirty f (_dirtyProperties i);
     data := <[f := val]> (data i);
     data_obj := data_obj i;
     fieldAccessors := fieldAccessors i;
     hasOneAccessors := hasOneAccessors i;
     ownProps := ownProps i |}.

(** the getter of a declared field *)
Definition field_get (f : string) (i : instance) : value :=
  default VUndefined (data i !! f).

(** the setter of a hasOne relation; [val_id] is [val._id] where it is read *)
Definition hasOne_set (h : heap) (ref : string) (val : value) (i : instance)
  : instance :=
  let val_id := match read_id h val with Ok v => v | Throw _ => VUndefined end in
  let '(d, dobj) :=
    if loose_eq_null val then (<[ref := VNull]> (data i), data_obj i)
    else if truthy val_id
         then (<[ref := val_id]> (data i), <[ref := val]> (data_obj i))
         else (<[ref := val]> (data i), data_obj i) in
  {| _id := _id i; _new := _new i; _type := _type i;
     _dirtyProperties := mark_dirty ref (_dirtyProperties i);
     data := d;
     data_obj := dobj;
     fieldAccessors := fieldAccessors i;
     hasOneAccessors := hasOneAccessors i;
     ownProps := ownProps i |}.

(** the getter of a hasOne relation *)
Definition hasOne_get (ref : string) (i : instance) : result value :=
  let target := default VUndefined (data_obj i !! ref) in
  if truthy target then Ok target
  else Throw (UnresolvedRelation ref (default VUndefined (data i !! ref))).

(** [that[p] = val]: the hasOne accessor, installed last, wins over a field
    accessor of the same name; a name without accessor becomes an own
    property.  For [p] other than [_id], [_new], [_type], [_dirtyProperties]
    and [remove]: the code overwrites those, this keeps them. *)
Definition instance_set (h : heap) (p : string) (val : value) (i : instance)
  : instance :=
  if bool_decide (p ∈ hasOneAccessors i) then hasOne_set h p val i
  else if bool_decide (p ∈ fieldAccessors i) then field_set p val i
  else {| _id := _id i; _new := _new i; _type := _type i;
          _dirtyProperties := _dirtyProperties i;
          data := data i; data_obj := data_obj i;
          fieldAccessors := fieldAccessors i;
          hasOneAccessors := hasOneAccessors i;
          ownProps := <[p := val]> (ownProps i) |}.

(** [obj[p]] *)
Definition instance_get (p : string) (i : instance) : result value :=
  if bool_decide (p ∈ hasOneAccessors i) then hasOne_get p i
  else if bool_decide (p ∈ fieldAccessors i) then Ok (field_get p i)
  else Ok (default VUndefined (ownProps i !! p)).

(** ** Metadata, the session state and the [js] monad *)

Record meta : Type := {
  name : string;
  fields : list (string * string);   (* field name, storage type *)
  hasMany : list (string * string);  (* collection name, target entity *)
  hasOne : list (string * string)    (* relation name, target entity *)
}.

(** The variables of the module closure and the objects they refer to.
    Plain dictionary objects live in [dicts]; the closure variable
    [trackedObjects] and the public property [persistence.trackedObjects]
    are both references into that store. *)
Record world : Type := {
  entityMeta : list (string * meta);
  _entityClassCache : gmap string bool;  (* class of a name: was its [meta] defined? *)
  objects : heap;
  dicts : list (list (string * value));
  trackedObjects : nat;                  (* [var trackedObjects] *)
  persistence_trackedObjects : nat;      (* [persistence.trackedObjects] *)
  createUUID : nat -> string;            (* the identifier generator *)
  uuidCount : nat                        (* identifiers drawn so far *)
}.

Definition set_entityMeta (m : list (string * meta)) (w : world) : world :=
  {| entityMeta := m; _entityClassCache := _entityClassCache w;
     objects := objects w; dicts := dicts w;
     trackedObjects := trackedObjects w;
     persistence_trackedObjects := persistence_trackedObjects w;
     createUUID := createUUID w; uuidCount := uuidCount w |}.

Definition set_entityClassCache (c : gmap string bool) (w : world) : world :=
  {| entityMeta := entityMeta w; _entityClassCache := c;
     objects := objects w; dicts := dicts w;
     trackedObjects := trackedObjects w;
     persistence_trackedObjects := persistence_trackedObjects w;
     createUUID := createUUID w; uuidCount := uuidCount w |}.

Definition set_objects (h : heap) (w : world) : world :=
  {| entityMeta := entityMeta w; _entityClassCache := _entityClassCache w;
     objects := h; dicts := dicts w;
     trackedObjects := trackedObjects w;
     persistence_trackedObjects := persistence_trackedObjects w;
     createUUID := createUUID w; uuidCount := uuidCount w |}.

Definition set_dicts (d : list (list (string * value))) (w : world) : world :=
  {| entityMeta := entityMeta w; _entityClassCache := _entityClassCache w;
     objects := objects w; dicts := d;
     trackedObjects := trackedObjects w;
     persistence_trackedObjects := persistence_trackedObjects w;
     createUUID := createUUID w; uuidCount := uuidCount w |}.

Definition set_persistence_trackedObjects (a : nat) (w : world) : world :=
  {| entityMeta := entityMeta w; _entityClassCache := _entityClassCache w;
     objects := objects w; dicts := dicts w;
     trackedObjects := trackedObjects w;
     persistence_trackedObjects := a;
     createUUID := createUUID w; uuidCount := uuidCount w |}.

Definition set_uuidCount (n : nat) (w : world) : world :=
  {| entityMeta := entityMeta w; _entityClassCache := _entityClassCache w;
     objects := objects w; dicts := dicts w;
     trackedObjects := trackedObjects w;
     persistence_trackedObjects := persistence_trackedObjects w;
     createUUID := createUUID w; uuidCount := n |}.

(** the state when the module has been loaded *)
Definition initial_world (gen : nat -> string) : world :=
  {| entityMeta := []; _entityClassCache := ∅;
     objects := []; dicts := [ [] ];
     trackedObjects := 0; persistence_trackedObjects := 0;
     createUUID := gen; uuidCount := 0 |}.

(** the dictionary the closure variable [trackedObjects] refers to *)
Definition tracked (w : world) : list (string * value) :=
  default [] (dicts w !! trackedObjects w).

(** the dictionary [persistence.trackedObjects] refers to *)
Definition public_tracked (w : world) : list (string * value) :=
  default [] (dicts w !! persistence_trackedObjects w).

(** Code that reads and writes the session state and may throw; a thrown
    exception keeps the state reached so far. *)
Definition js (A : Type) : Type := world -> result A * world.

Definition js_ret {A} (x : A) : js A := fun w => (Ok x, w).
Definition js_throw {A} (e : exn) : js A := fun w => (Throw e, w).
Definition js_bind {A B} (m : js A) (k : A -> js B) : js B :=
  fun w => match m w with
           | (Ok x, w') => k x w'
           | (Throw e, w') => (Throw e, w')
           end.
Definition js_lift {A} (r : result A) : js A := fun w => (r, w).
Definition js_modify (f : world -> world) : js unit := fun w => (Ok tt, f w).

Notation "x <- m ;; k" := (js_bind m (fun x => k))
  (at level 100, m at next level, right associativity).
Notation "m ;;; k" := (js_bind m (fun _ => k))
  (at level 100, right associativity).

(** ** Metadata registry and entity factory *)

(** [getEntity(entityName)]: the constructor is identified by its name; the
    class cache remembers whether the [meta] it captured was defined *)
Definition getEntity (entityName : string) (w : world) : world :=
  match _entityClassCache w !! entityName with
  | Some _ => w
  | None =>
      set_entityClassCache
        (<[entityName := bool_decide (is_Some (dict_get entityName (entityMeta w)))]>
           (_entityClassCache w)) w
  end.

(** [persistence.define] *)
Definition define (entityName : string) (fs : list (string * string))
  (w : world) : world :=
  match dict_get entityName (entityMeta w) with
  | Some _ => getEntity entityName w        (* Already defined, ignore *)
  | None =>
      let m := {| name := entityName; fields := fs; hasMany := []; hasOne := [] |} in
      getEntity entityName (set_entityMeta (dict_set entityName m (entityMeta w)) w)
  end.

(** [persistence.getMeta] *)
Definition getMeta (entityName : string) (w : world) : option meta :=
  dict_get entityName (entityMeta w).

(** the [meta] captured by the constructor of [entityName], when the caller
    can hold that constructor and its [meta] is defined *)
Definition class_meta (entityName : string) (w : world) : option meta :=
  match _entityClassCache w !! entityName with
  | Some true => dict_get entityName (entityMeta w)
  | _ => None
  end.

Definition set_hasMany (l : list (string * string)) (m : meta) : meta :=
  {| name := name m; fields := fields m; hasMany := l; hasOne := hasOne m |}.
Definition set_hasOne (l : list (string * string)) (m : meta) : meta :=
  {| name := name m; fields := fields m; hasMany := hasMany m; hasOne := l |}.

(** [entity.hasMany(collName, otherEntity, invCollName)] on the constructor
    of [entityName] *)
Definition entity_hasMany (entityName collName otherEntity invCollName : string)
  : js unit :=
  fun w =>
    match class_meta entityName w with
    | None => (Throw (TypeError (ReadPropertyOfNullish "hasMany")), w)
    | Some m =>
        let w1 := set_entityMeta
                    (dict_set entityName
                       (set_hasMany (dict_set collName otherEntity (hasMany m)) m)
                       (entityMeta w)) w in
        match _entityClassCache w !! otherEntity, class_meta otherEntity w1 with
        | None, _ => (Throw (TypeError (ReadPropertyOfNullish "meta")), w)
        | Some _, None => (Throw (TypeError (ReadPropertyOfNullish "hasOne")), w1)
        | Some _, Some om =>
            (Ok tt,
             set_entityMeta
               (dict_set otherEntity
                  (set_hasOne (dict_set invCollName entityName (hasOne om)) om)
                  (entityMeta w1)) w1)
        end
    end.

(** the loop [for (var f in obj) that[f] = obj[f]] *)
Definition assign_all (h : heap) (obj : list (string * value)) (that : instance)
  : instance :=
  fold_left (fun i fv => instance_set h (fst fv) (snd fv) i) obj that.

(** the constructor [entity(obj)] of [entityName]; returns the new object *)
Definition entity (entityName : string) (obj : list (string * value))
  : js value :=
  fun w =>
    match _entityClassCache w !! entityName with
    | None => (Throw (TypeError NotAFunction), w)   (* no such constructor *)
    | Some _ =>
        let w1 := set_uuidCount (S (uuidCount w)) w in
        match class_meta entityName w with
        | None => (Throw (TypeError (ReadPropertyOfNullish "fields")), w1)
        | Some m =>
            let that :=
              {| _id := VStr (createUUID w (uuidCount w));
                 _new := true;
                 _type := entityName;
                 _dirtyProperties := [];
                 data := ∅; data_obj := ∅;
                 fieldAccessors := map fst (fields m);
                 hasOneAccessors := map fst (hasOne m);
                 ownProps := ∅ |} in
            (Ok (VObj (List.length (objects w))),
             set_objects (objects w ++ [assign_all (objects w) obj that])%list w1)
        end
    end.

(** [obj[p] = val] on an entity instance held by the caller *)
Definition assign (a : addr) (p : string) (val : value) (w : world) : world :=
  match objects w !! a with
  | Some i => set_objects (<[a := instance_set (objects w) p val i]> (objects w)) w
  | None => w
  end.

(** [obj[p]], for [p] other than the internal properties, which have their
    own projections ([read_id] for [_id]) *)
Definition read (a : addr) (p : string) (w : world) : result value :=
  match objects w !! a with
  | Some i => instance_get p i
  | None => Ok VUndefined
  end.

(** ** Identity cache *)

(** [persistence.add] *)
Definition add (obj : value) : js unit :=
  id <- (fun w => (read_id (objects w) obj, w)) ;;
  js_modify (fun w =>
    if truthy (dict_read (to_string id) (tracked w)) then w
    else set_dicts
           (<[trackedObjects w := dict_set (to_string id) obj (tracked w)]> (dicts w))
           w).

(** [persistence.clean] *)
Definition clean (w : world) : world :=
  set_persistence_trackedObjects (List.length (dicts w))
    (set_dicts (dicts w ++ [ [] ])%list w).

Definition set_id_new (id : value) (n : bool) (i : instance) : instance :=
  {| _id := id; _new := n; _type := _type i;
     _dirtyProperties := _dirtyProperties i;
     data := data i; data_obj := data_obj i;
     fieldAccessors := fieldAccessors i;
     hasOneAccessors := hasOneAccessors i;
     ownProps := ownProps i |}.

(** the type [rowMeta.fields[prop]] *)
Definition field_type (m : meta) (prop : string) : value :=
  match dict_get prop (fields m) with
  | Some t => VStr t
  | None => VUndefined
  end.

(** one round of the loop [for (var p in row)] of [rowToEntity], for a
    column that does not name an internal property after the prefix *)
Definition row_column (m : meta) (row : list (string * value)) (prefix : string)
  (o : addr) (p : string) (w : world) : world :=
  if String.prefix prefix p then
    let prop := String.substring (String.length prefix)
                  (String.length p - String.length prefix) p in
    if String.eqb prop "id" then w
    else assign o prop (dbValToEntityVal (dict_read p row) (field_type m prop)) w
  else w.

(** [persistence.rowToEntity] *)
Definition rowToEntity (entityName : string) (row : list (string * value))
  (prefix : string) : js value :=
  fun w =>
    let id := dict_read (prefix +:+ "id") row in
    let cached := dict_read (to_string id) (tracked w) in
    if truthy cached then (Ok cached, w)           (* Cached version *)
    else
      let rowMeta := dict_get entityName (entityMeta w) in
      match entity entityName [] (getEntity entityName w) with
      | (Throw e, w1) => (Throw e, w1)
      | (Ok (VObj o), w1) =>
          let w2 := set_objects (alter (set_id_new id false) o (objects w1)) w1 in
          match rowMeta with
          | None => (Throw (TypeError (ReadPropertyOfNullish "fields")), w2)
          | Some m =>
              (Ok (VObj o),
               fold_left (fun w' p => row_column m row prefix o p w')
                 (map fst row) w2)
          end
      | (Ok v, w1) => (Ok v, w1)
      end.

(** ** Persistence engine: [save] *)

(** the loop over [obj._dirtyProperties]: the array [values]; reading
    [obj[p]] goes through the accessor, and [entityValToDbVal] is called
    with one argument, so its [type] is [undefined] *)
Fixpoint dirty_values (h : heap) (i : instance) (ps : list string)
  : result (list value) :=
  match ps with
  | [] => Ok []
  | p :: ps' =>
      v ← instance_get p i;
      dv ← entityValToDbVal h v VUndefined;
      vs ← dirty_values h i ps';
      Ok (dv :: vs)
  end.

Definition quote_name (p : string) : string := "`" +:+ p +:+ "`".

(** the array [properties] after the loop *)
Definition dirty_columns (i : instance) : list string :=
  map quote_name (_dirtyProperties i).

Definition insert_sql (type : string) (properties qs : list string) : string :=
  "INSERT INTO `" +:+ type +:+ "` (" +:+ String.concat ", " properties
  +:+ ") VALUES (" +:+ String.concat ", " qs +:+ ")".

Definition update_sql (type : string) (propertyPairs : list string) (id : value)
  : string :=
  "UPDATE `" +:+ type +:+ "` SET " +:+ String.concat "," propertyPairs
  +:+ " WHERE id = '" +:+ to_string id +:+ "'".

(** [obj._dirtyProperties = {}] and, for an insert, [obj._new = false] *)
Definition saved (i : instance) : instance :=
  {| _id := _id i; _new := false; _type := _type i;
     _dirtyProperties := [];
     data := data i; data_obj := data_obj i;
     fieldAccessors := fieldAccessors i;
     hasOneAccessors := hasOneAccessors i;
     ownProps := ownProps i |}.

(** How [save] ends: it calls [callback()] itself, or hands a statement and
    [callback] to [tx.executeSql]. *)
Inductive save_action : Type :=
| SaveCallback
| SaveExecute (sql : string) (values : list value).

(** [save(obj, tx, callback)] up to its final call *)
Definition save (obj : value) : js save_action :=
  fun w =>
    match obj with
    | VUndefined | VNull => (Throw (TypeError (ReadPropertyOfNullish "_type")), w)
    | VObj a =>
        match objects w !! a with
        | None => (Ok SaveCallback, w)
        | Some i =>
            match dirty_values (objects w) i (_dirtyProperties i) with
            | Throw e => (Throw e, w)
            | Ok values =>
                match _dirtyProperties i with
                | [] => (Ok SaveCallback, w)           (* Nothing changed *)
                | _ :: _ =>
                    let w' := set_objects (<[a := saved i]> (objects w)) w in
                    if _new i then
                      (Ok (SaveExecute
                             (insert_sql (_type i)
                                (dirty_columns i ++ ["id"])%list
                                (map (fun _ => "?") (_dirtyProperties i) ++ ["?"])%list)
                             (values ++ [_id i])%list), w')
                    else
                      (Ok (SaveExecute
                             (update_sql (_type i)
                                (map (fun p => quote_name p +:+ " = ?")
                                   (_dirtyProperties i))
                                (_id i))
                             values), w')
                end
            end
        end
    | _ => (Ok SaveCallback, w)
    end.

(** ** The store driver and the callbacks

    The relational store driver ([connection.transaction(fn(tx))],
    [tx.execute(sql, boundParameters, onSuccess)]) is not part of the
    source file; [executeSql], [deliver] and [run] below model it from its
    contract.  Each call of [transaction] starts a transaction of its own;
    a statement handed to [executeSql] completes later, on the success
    path, and its callback is then called.  Pending work is a queue served
    in order. *)

(** function values passed where a callback is expected *)
Inductive callback : Type :=
| CbUndefined                               (* no argument given *)
| CbUser (f : nat)                          (* a function of the caller *)
| CbPersistNext (tx : nat) (k : callback)   (* the closure made in [persistOneEntity] *)
| CbCreateNext (tx : nat) (k : callback).   (* the closure made in [createOneEntityTable] *)

Inductive event : Type :=
| EvTransaction (tx : nat)
    (* the driver started transaction [tx] and called its body *)
| EvExecuteSql (tx : nat) (sql : string) (args : option (list value))
    (* [tx.executeSql(sql, args, ...)] was called *)
| EvSuccess (tx : nat) (sql : string)
    (* the statement completed; its callback is called next *)
| EvCallback (f : nat) (arg : option nat)
    (* the caller's function [f] was called, with a transaction or nothing *)
| EvUncaught (e : exn).
    (* an exception left a callback the driver had called *)

Inductive task : Type :=
| TTransaction (m : meta) (k : callback)
    (* [conn.transaction(function (tx) {...})] of [createOneEntityTable] *)
| TStatement (tx : nat) (sql : string) (k : callback).
    (* a statement awaiting completion *)

(** The engine and the driver together, for one call of [flush] or
    [schemaSync] at a time: [objArray] and [entityArray] are the closure
    variables of the running call. *)
Record machine : Type := {
  session : world;
  objArray : list value;    (* of the running [flush], last element first *)
  entityArray : list meta;  (* of the running [schemaSync], last element first *)
  queue : list task;
  nextTx : nat;
  trace : list event
}.

Definition set_session (w : world) (m : machine) : machine :=
  {| session := w; objArray := objArray m; entityArray := entityArray m;
     queue := queue m; nextTx := nextTx m; trace := trace m |}.
Definition set_objArray (l : list value) (m : machine) : machine :=
  {| session := session m; objArray := l; entityArray := entityArray m;
     queue := queue m; nextTx := nextTx m; trace := trace m |}.
Definition set_entityArray (l : list meta) (m : machine) : machine :=
  {| session := session m; objArray := objArray m; entityArray := l;
     queue := queue m; nextTx := nextTx m; trace := trace m |}.
Definition set_queue (q : list task) (m : machine) : machine :=
  {| session := session m; objArray := objArray m; entityArray := entityArray m;
     queue := q; nextTx := nextTx m; trace := trace m |}.
Definition set_nextTx (n : nat) (m : machine) : machine :=
  {| session := session m; objArray := objArray m; entityArray := entityArray m;
     queue := queue m; nextTx := n; trace := trace m |}.
Definition log (e : event) (m : machine) : machine :=
  {| session := session m; objArray := objArray m; entityArray := entityArray m;
     queue := queue m; nextTx := nextTx m; trace := (trace m ++ [e])%list |}.
Definition enqueue (t : task) (m : machine) : machine :=
  set_queue (queue m ++ [t])%list m.

(** a machine at rest in session [w], the driver having started [n]
    transactions *)
Definition idle (w : world) (n : nat) : machine :=
  {| session := w; objArray := []; entityArray := []; queue := [];
     nextTx := n; trace := [] |}.

(** Modelled from the spec: [tx.executeSql(sql, args, k)] of the store
    driver, which is outside the source file; the statement is noted and
    its completion is pending. *)
Definition executeSql (tx : nat) (sql : string) (args : option (list value))
  (k : callback) (m : machine) : machine :=
  enqueue (TStatement tx sql k) (log (EvExecuteSql tx sql args) m).

(** [callback(arg)] where [callback] is an argument of the caller *)
Definition call_user (k : callback) (arg : option nat) (m : machine)
  : result unit * machine :=
  match k with
  | CbUser f => (Ok tt, log (EvCallback f arg) m)
  | _ => (Throw (TypeError NotAFunction), m)
  end.

(** [if (callback) callback(arg)] *)
Definition call_if_given (k : callback) (arg : option nat) (m : machine)
  : result unit * machine :=
  match k with
  | CbUndefined => (Ok tt, m)
  | _ => call_user k arg m
  end.

(** ** [flush] *)

(** The closure [function () { if (objArray.length > 0) persistOneEntity();
    else if (callback) callback(); }], with [persistOneEntity] unfolded:
    [stack] is [objArray]. *)
Fixpoint persist_next (tx : nat) (callback : callback) (stack : list value)
  (m : machine) : result unit * machine :=
  match stack with
  | [] => call_if_given callback None m
  | obj :: rest =>
      let m1 := set_objArray rest m in
      match save obj (session m1) with
      | (Throw e, w) => (Throw e, set_session w m1)
      | (Ok SaveCallback, w) => persist_next tx callback rest (set_session w m1)
      | (Ok (SaveExecute sql values), w) =>
          (Ok tt,
           executeSql tx sql (Some values) (CbPersistNext tx callback)
             (set_session w m1))
      end
  end.

(** [persistOneEntity()]; on an empty array [pop] gives [undefined] *)
Definition persistOneEntity (tx : nat) (callback : callback) (m : machine)
  : result unit * machine :=
  match objArray m with
  | [] => (Throw (TypeError (ReadPropertyOfNullish "_type")), m)
  | _ :: _ => persist_next tx callback (objArray m) m
  end.

(** [persistence.flush(tx, callback)] up to its return *)
Definition flush (tx : nat) (callback : callback) (m : machine)
  : result unit * machine :=
  let m1 := set_objArray (rev (dict_values (tracked (session m)))) m in
  match objArray m1 with
  | _ :: _ => persistOneEntity tx callback m1
  | [] => call_user callback None m1
  end.

(** ** [schemaSync] *)

(** the text [rowDef] before its last two characters are cut *)
Definition rowDef_of (m : meta) : string :=
  fold_left (fun s rel => s +:+ fst rel +:+ " VARCHAR(255), ") (hasOne m)
    (fold_left (fun s prop => s +:+ fst prop +:+ " " +:+ snd prop +:+ ", ")
       (fields m) EmptyString).

Definition create_table_sql (m : meta) : string :=
  let rowDef := rowDef_of m in
  "CREATE TABLE IF NOT EXISTS `" +:+ name m
  +:+ "` ( id VARCHAR(32) PRIMARY KEY, "
  +:+ String.substring 0 (String.length rowDef - 2) rowDef +:+ ")".

(** [createOneEntityTable()] up to its return: the transaction is asked
    for, its body runs when the driver starts it *)
Definition createOneEntityTable (callback : callback) (m : machine)
  : result unit * machine :=
  match entityArray m with
  | [] => (Throw (TypeError (ReadPropertyOfNullish "fields")), m)
  | meta :: rest => (Ok tt, enqueue (TTransaction meta callback)
                              (set_entityArray rest m))
  end.

(** [persistence.schemaSync(callback)] up to its return *)
Definition schemaSync (callback : callback) (m : machine)
  : result unit * machine :=
  createOneEntityTable callback
    (set_entityArray (rev (dict_values (entityMeta (session m)))) m).

(** ** Delivery of pending work *)

(** calling a function value *)
Definition invoke (k : callback) (arg : option nat) (m : machine)
  : result unit * machine :=
  match k with
  | CbPersistNext tx callback => persist_next tx callback (objArray m) m
  | CbCreateNext tx callback =>
      match entityArray m with
      | _ :: _ => createOneEntityTable callback m
      | [] => call_if_given callback (Some tx) m
      end
  | _ => call_user k arg m
  end.

(** an exception that leaves a callback reaches the driver *)
Definition settle (r : result unit * machine) : machine :=
  match r with
  | (Ok _, m) => m
  | (Throw e, m) => log (EvUncaught e) m
  end.

(** Modelled from the spec: the store driver serves one pending task; it
    starts a transaction and calls its body, or completes a statement and
    calls the success callback. *)
Definition deliver (t : task) (m : machine) : machine :=
  match t with
  | TTransaction meta callback =>
      let tx := nextTx m in
      executeSql tx (create_table_sql meta) None (CbCreateNext tx callback)
        (log (EvTransaction tx) (set_nextTx (S tx) m))
  | TStatement tx sql k =>
      settle (invoke k None (log (EvSuccess tx sql) m))
  end.

(** Modelled from the spec: the store driver serves pending tasks in
    order, at most [fuel] of them. *)
Fixpoint run (fuel : nat) (m : machine) : machine :=
  match fuel with
  | O => m
  | S fuel' =>
      match queue m with
      | [] => m
      | t :: q => run fuel' (deliver t (set_queue q m))
      end
  end.

(** ** Vocabulary of the properties *)

(** a callback argument as a caller can give it: a function or nothing *)
Definition user_callback (f : option nat) : callback :=
  match f with
  | Some g => CbUser g
  | None => CbUndefined
  end.

(** the callbacks a caller can pass *)
Definition user_level (k : callback) : Prop :=
  match k with
  | CbUndefined | CbUser _ => True
  | _ => False
  end.

(** the function values the engine itself hands to the driver: closures of
    [flush] and [schemaSync] around a callback of the caller *)
Definition engine_closure (k : callback) : Prop :=
  match k with
  | CbPersistNext _ k' | CbCreateNext _ k' => user_level k'
  | _ => False
  end.

Definition engine_task (t : task) : Prop :=
  match t with
  | TTransaction _ k => user_level k
  | TStatement _ _ k => engine_closure k
  end.

(** nothing pending but work of the engine, and no call of a missing
    callback so far *)
Definition calm (m : machine) : Prop :=
  Forall engine_task (queue m)
  /\ EvUncaught (TypeError NotAFunction) ∉ trace m.

(** a dirty hasOne relation without cached target: what case (c) of the
    setter leaves behind when no instance was assigned before *)
Definition unresolved (ref : string) (i : instance) : Prop :=
  ref ∈ _dirtyProperties i /\ ref ∈ hasOneAccessors i /\ data_obj i !! ref = None.

(** the closure variable [trackedObjects] refers to an existing dictionary *)
Definition tracked_bound (w : world) : Prop :=
  trackedObjects w < List.length (dicts w).

(** the transactions in which the statements of a trace were issued *)
Definition statement_txs (tr : list event) : list nat :=
  omap (fun e => match e with EvExecuteSql tx _ _ => Some tx | _ => None end) tr.

(** the transactions the driver started *)
Definition started_txs (tr : list event) : list nat :=
  omap (fun e => match e with EvTransaction tx => Some tx | _ => None end) tr.

(** what [schemaSync] is to leave in the trace for the entities [ms], taken
    in that order, when the driver numbers its next transaction [n] *)
Fixpoint sync_trace (n : nat) (ms : list meta) : list event :=
  match ms with
  | [] => []
  | m :: ms' =>
      EvTransaction n
      :: EvExecuteSql n (create_table_sql m) None
      :: EvSuccess n (create_table_sql m)
      :: sync_trace (S n) ms'
  end.

(** the call of the caller's function that ends a run, if one was given *)
Definition final_callback (f : option nat) (arg : option nat) : list event :=
  match f with
  | Some g => [EvCallback g arg]
  | None => []
  end.

(** ** Sessions used as concrete inputs *)

Module Scenario.

(** Modelled from the spec: the identifier generator, which is outside
    the source file; here it counts, which keeps identifiers unique. *)
Definition gen (n : nat) : string := "uuid" +:+ pretty n.

Definition after {A} (m : js A) (w : world) : world := snd (m w).

(** [Person = define("Person", {name: "TEXT", alive: "BOOL"});
    Pet = define("Pet", {name: "TEXT"});
    Person.hasMany("pets", Pet, "owner")] *)
Definition registry : world :=
  after (entity_hasMany "Person" "pets" "Pet" "owner")
    (define "Pet" [("name", "TEXT")]
       (define "Person" [("name", "TEXT"); ("alive", "BOOL")]
          (initial_world gen))).

(** [alice = Person({name: "Alice", alive: true})], object 0 *)
Definition with_alice : world :=
  after (entity "Person" [("name", VStr "Alice"); ("alive", VBool true)])
    registry.

Definition alice : instance :=
  {| _id := VStr "uuid0"; _new := true; _type := "Person";
     _dirtyProperties := ["name"; "alive"];
     data := <["alive" := VBool true]> (<["name" := VStr "Alice"]> ∅);
     data_obj := ∅;
     fieldAccessors := ["name"; "alive"];
     hasOneAccessors := [];
     ownProps := ∅ |}.

(** [rex = Pet({name: "Rex", owner: alice})], object 1 *)
Definition with_rex : world :=
  after (entity "Pet" [("name", VStr "Rex"); ("owner", VObj 0)]) with_alice.

(** [rex.owner = null] *)
Definition rex_disowned : world := assign 1 "owner" VNull with_rex.

(** [tom = Pet({owner: "abc"})], object 1: a bare id *)
Definition with_tom : world :=
  after (entity "Pet" [("owner", VStr "abc")]) with_alice.

Definition tom : instance :=
  {| _id := VStr "uuid1"; _new := true; _type := "Pet";
     _dirtyProperties := ["owner"];
     data := <["owner" := VStr "abc"]> ∅;
     data_obj := ∅;
     fieldAccessors := ["name"];
     hasOneAccessors := ["owner"];
     ownProps := ∅ |}.

(** [kit = Pet({name: null, owner: "abc"})], object 1 *)
Definition with_kit : world :=
  after (entity "Pet" [("name", VNull); ("owner", VStr "abc")]) with_alice.

(** [persistence.add(alice)] *)
Definition alice_tracked : world := after (add (VObj 0)) with_alice.

(** [persistence.add(alice); persistence.clean()] *)
Definition kept : world := clean alice_tracked.

(** [persistence.schemaSync(f0)] on the registry, the driver run to rest *)
Definition synced : machine :=
  run 4 (snd (schemaSync (CbUser 0) (idle registry 0))).

(** two rows of table [Person] with the same id *)
Definition row1 : list (string * value) :=
  [("id", VStr "x1"); ("name", VStr "Al"); ("alive", VNum 1)].
Definition row2 : list (string * value) :=
  [("id", VStr "x1"); ("name", VStr "Bob"); ("alive", VNum 0)].

End Scenario.

(** ** Vocabulary of the further properties *)

(** [obj] has nothing to save in [w]: [save] calls back at once *)
Definition settled (obj : value) (w : world) : Prop :=
  save obj w = (Ok SaveCallback, w).

(** the calls of the caller's functions noted in a trace *)
Definition callbacks (tr : list event) : list (nat * option nat) :=
  omap (fun e => match e with EvCallback f arg => Some (f, arg) | _ => None end) tr.

(** the exceptions that reached the driver *)
Definition uncaught (tr : list event) : list exn :=
  omap (fun e => match e with EvUncaught e => Some e | _ => None end) tr.

(** a statement of [flush] awaits completion, and nothing else *)
Definition pending_save (tx : nat) (f : option nat) (m : machine) : Prop :=
  exists sql, queue m = [TStatement tx sql (CbPersistNext tx (user_callback f))].

(** ** [reset] *)

(** The closure variables of a call of [reset] and the statements it has
    handed to the driver. *)
Record dropper : Type := {
  reset_tx : nat;                   (* the argument [tx] *)
  tableArray : list string;         (* last element first *)
  dropping : list string;           (* statements awaiting completion *)
  drop_trace : list event
}.

(** [tableArray.pop()] *)
Definition pop_table (l : list string) : value * list string :=
  match l with
  | [] => (VUndefined, [])
  | t :: rest => (VStr t, rest)
  end.

(** [dropOneTable()] *)
Definition dropOneTable (d : dropper) : dropper :=
  let (tableName, rest) := pop_table (tableArray d) in
  let sql := "DROP TABLE " +:+ to_string tableName in
  {| reset_tx := reset_tx d;
     tableArray := rest;
     dropping := (dropping d ++ [sql])%list;
     drop_trace := (drop_trace d ++ [EvExecuteSql (reset_tx d) sql None])%list |}.

(** [persistence.reset(tx)] up to its return *)
Definition reset (tx : nat) (w : world) : dropper :=
  dropOneTable {| reset_tx := tx;
                  tableArray := rev (map fst (entityMeta w));
                  dropping := []; drop_trace := [] |}.

(** Modelled from the spec: the store driver completes the oldest pending
    statement of [reset] and calls its callback, the closure
    [function () { if (tableArray.length > 0) dropOneTable(); }]. *)
Definition drop_deliver (d : dropper) : dropper :=
  match dropping d with
  | [] => d
  | sql :: q =>
      let d1 := {| reset_tx := reset_tx d; tableArray := tableArray d;
                   dropping := q;
                   drop_trace := (drop_trace d ++ [EvSuccess (reset_tx d) sql])%list |} in
      match tableArray d1 with
      | [] => d1
      | _ :: _ => dropOneTable d1
      end
  end.

(** Modelled from the spec: the store driver serves the statements of
    [reset], at most [fuel] of them. *)
Fixpoint drop_run (fuel : nat) (d : dropper) : dropper :=
  match fuel with
  | O => d
  | S fuel' =>
      match dropping d with
      | [] => d
      | _ :: _ => drop_run fuel' (drop_deliver d)
      end
  end.

(** the statements [reset] is to leave in the trace for the tables [ts] *)
Definition drops (tx : nat) (ts : list value) : list event :=
  flat_map (fun t => [EvExecuteSql tx ("DROP TABLE " +:+ to_string t) None;
                      EvSuccess tx ("DROP TABLE " +:+ to_string t)]) ts.

(** [p.substring(prefix.length)] *)
Definition column_prop (prefix p : string) : string :=
  String.substring (String.length prefix)
    (String.length p - String.length prefix) p.

(** ** Domain of the embedding *)

(** the data properties the constructor gives an instance besides its
    accessors *)
Definition internal_names : list string :=
  ["_id"; "_new"; "_type"; "_dirtyProperties"; "remove"].

Definition is_internal (p : string) : bool := bool_decide (p ∈ internal_names).

(** no key of the initializer names an internal property, so the loop
    [that[f] = obj[f]] overwrites none of them *)
Definition plain_keys (obj : list (string * value)) : bool :=
  forallb (fun kv => negb (is_internal (fst kv))) obj.

(** no column of the row names, after the prefix, an internal property, so
    the loop [o[prop] = ...] overwrites none of them *)
Definition plain_columns (prefix : string) (row : list (string * value)) : bool :=
  forallb (fun kv => negb (String.prefix prefix (fst kv)
                           && is_internal (column_prop prefix (fst kv)))) row.

(** [to_string] gives the text JavaScript gives: a number prints in full
    below 2^53, the text of an object is left out *)
Definition prints_in_full (v : value) : bool :=
  match v with
  | VNum n => (Z.abs n <? 2 ^ 53)%Z
  | VObj _ => false
  | _ => true
  end.

(** ** Vocabulary for [rowToEntity] *)

(** the value the column [p] of [row] is converted to *)
Definition column_value (m : meta) (row : list (string * value)) (prefix p : string)
  : value :=
  dbValToEntityVal (dict_read p row) (field_type m (column_prop prefix p)).

(** what the loop of [rowToEntity] keeps of the object it fills *)
Definition same_shape (i i' : instance) : Prop :=
  fieldAccessors i' = fieldAccessors i /\ hasOneAccessors i' = hasOneAccessors i
  /\ _id i' = _id i /\ _new i' = _new i /\ _type i' = _type i
  /\ forall g, g ∈ _dirtyProperties i -> g ∈ _dirtyProperties i'.

(** ** [remove] *)




(** ** Vocabulary for [schemaSync] *)

(** the column definitions of the table of [m], in the order of the loops
    of [createOneEntityTable] *)
Definition column_defs (m : meta) : list string :=
  (map (fun prop => fst prop +:+ " " +:+ snd prop) (fields m)
   ++ map (fun rel => fst rel +:+ " VARCHAR(255)") (hasOne m))%list.

(** ** Further concrete sessions *)

Module Cases.




(** the metadata of [Person] in [Scenario.registry] *)
Definition person : meta :=
  {| name := "Person"; fields := [("name", "TEXT"); ("alive", "BOOL")];
     hasMany := [("pets", "Pet")]; hasOne := [] |}.

(** [save(alice, tx, cb)] has gone through *)
Definition alice_saved : world :=
  Scenario.after (save (VObj 0)) Scenario.with_alice.

(** [alice.name = "Bob"] after that *)
Definition alice_renamed : world := assign 0 "name" (VStr "Bob") alice_saved.

Definition renamed : instance :=
  {| _id := VStr "uuid0"; _new := false; _type := "Person";
     _dirtyProperties := ["name"];
     data := <["alive" := VBool true]> (<["name" := VStr "Bob"]> ∅);
     data_obj := ∅;
     fieldAccessors := ["name"; "alive"];
     hasOneAccessors := [];
     ownProps := ∅ |}.

(** [persistence.add(alice)] and a [save] of her that has gone through *)
Definition tracked_saved : world :=
  Scenario.after (save (VObj 0)) Scenario.alice_tracked.

(** the first row of [Scenario] materialized, and its object registered *)
Definition row_loaded : world :=
  snd (rowToEntity "Person" Scenario.row1 "" Scenario.registry).
Definition row_tracked : world := Scenario.after (add (VObj 0)) row_loaded.

End Cases.

(** * Properties *)

(** ** The value converter *)

Lemma entityValToDbVal_undefined h type :
  entityValToDbVal h VUndefined type = Ok VNull.
Proof. reflexivity. Qed.

Lemma entityValToDbVal_instance h a i type :
  h !! a = Some i -> truthy (_id i) = true ->
  entityValToDbVal h (VObj a) type = Ok (_id i).
Proof.
  intros Ha Hid. unfold entityValToDbVal. cbn. rewrite Ha. cbn. now rewrite Hid.
Qed.

Lemma entityValToDbVal_primitive h val type :
  (forall a, val <> VObj a) -> val <> VUndefined -> val <> VNull ->
  entityValToDbVal h val type =
    Ok (if strict_eq type (VStr "BOOL")
        then VNum (if truthy val then 1 else 0) else val).
Proof.
  intros Hobj Hu Hn. destruct val as [| | b | n | s | a]; try congruence;
    unfold entityValToDbVal; cbn;
    destruct (strict_eq type (VStr "BOOL")); reflexivity.
Qed.

(** C6: the entity-to-storage conversion given [null] does not return
    storage null: reading [val._id] raises a TypeError, whatever the type
    tag. *)
Theorem entityValToDbVal_null_throws h type :
  entityValToDbVal h VNull type = Throw (TypeError (ReadPropertyOfNullish "_id")).
Proof. reflexivity. Qed.

(** C8: over the BOOL domain the two conversions are inverse to each other:
    for a stored [v] in {0, 1}, converting to the entity value and back
    gives what converting [v] itself gives, namely [v]; and every boolean
    is stored as 0 or 1 and read back as itself. *)
Theorem BOOL_round_trip h v :
  v = VNum 0 \/ v = VNum 1 ->
  entityValToDbVal h (dbValToEntityVal v (VStr "BOOL")) (VStr "BOOL")
    = entityValToDbVal h v (VStr "BOOL")
  /\ entityValToDbVal h (dbValToEntityVal v (VStr "BOOL")) (VStr "BOOL") = Ok v
  /\ (exists b, dbValToEntityVal v (VStr "BOOL") = VBool b)
  /\ forall b, exists n,
       entityValToDbVal h (VBool b) (VStr "BOOL") = Ok (VNum n)
       /\ (n = 0%Z \/ n = 1%Z)
       /\ dbValToEntityVal (VNum n) (VStr "BOOL") = VBool b.
Proof.
  intros [-> | ->]; (repeat split; [eexists; reflexivity |]);
    intros [|]; [exists 1%Z | exists 0%Z | exists 1%Z | exists 0%Z];
    repeat split; auto.
Qed.

Lemma BOOL_round_trip_witness :
  entityValToDbVal [] (dbValToEntityVal (VNum 1) (VStr "BOOL")) (VStr "BOOL")
    = Ok (VNum 1).
Proof.
  apply (BOOL_round_trip [] (VNum 1)). right. reflexivity.
Defined.

(** ** The accessors *)

Lemma hasOne_set_dirty h ref val i :
  ref ∈ _dirtyProperties (hasOne_set h ref val i).
Proof.
  assert (Hd : _dirtyProperties (hasOne_set h ref val i)
               = mark_dirty ref (_dirtyProperties i)).
  { unfold hasOne_set. destruct (loose_eq_null val); [reflexivity|].
    destruct (truthy _); reflexivity. }
  rewrite Hd. unfold mark_dirty. case_bool_decide as Hin; [exact Hin|].
  apply elem_of_app. right. apply list_elem_of_singleton. reflexivity.
Qed.

(** writing [null] stores a null foreign key and leaves [data_obj] alone *)
Lemma hasOne_set_null h ref val i :
  loose_eq_null val = true ->
  data (hasOne_set h ref val i) !! ref = Some VNull
  /\ data_obj (hasOne_set h ref val i) = data_obj i.
Proof.
  intros Hn. unfold hasOne_set. rewrite Hn. cbn. split; [|reflexivity].
  apply lookup_insert_eq.
Qed.

Lemma hasOne_get_after_null h ref val i target :
  loose_eq_null val = true ->
  hasOne_get ref i = Ok target ->
  hasOne_get ref (hasOne_set h ref val i) = Ok target.
Proof.
  intros Hn Hg. unfold hasOne_get in *.
  destruct (hasOne_set_null h ref val i Hn) as [_ ->].
  destruct (truthy (default VUndefined (data_obj i !! ref))); [exact Hg|discriminate].
Qed.

(** C3: [rex.owner = alice; rex.owner = null]: the foreign key is cleared
    and the relation is dirty, but the cached target stays, so reading
    [rex.owner] still returns [alice], and saving [rex] stores her id. *)
Theorem hasOne_null_keeps_target :
  read 1 "owner" Scenario.with_rex = Ok (VObj 0)
  /\ (exists i, objects Scenario.rex_disowned !! 1 = Some i
        /\ data i !! "owner" = Some VNull
        /\ _dirtyProperties i = ["name"; "owner"]
        /\ data_obj i !! "owner" = Some (VObj 0))
  /\ read 1 "owner" Scenario.rex_disowned = Ok (VObj 0)
  /\ fst (save (VObj 1) Scenario.rex_disowned)
     = Ok (SaveExecute "INSERT INTO `Pet` (`name`, `owner`, id) VALUES (?, ?, ?)"
             [VStr "Rex"; VStr "uuid0"; VStr "uuid1"]).
Proof.
  split; [vm_compute; reflexivity|].
  split.
  { eexists. split; [vm_compute; reflexivity|].
    split; [vm_compute; reflexivity|].
    split; vm_compute; reflexivity. }
  split; vm_compute; reflexivity.
Qed.

(** C2: [save] of an instance whose dirty field [alive] is declared BOOL and
    holds [true] binds [true] itself, not 1: [entityValToDbVal] is called
    without the declared type. *)
Theorem save_ignores_declared_type :
  getMeta "Person" Scenario.with_alice
    = Some {| name := "Person"; fields := [("name", "TEXT"); ("alive", "BOOL")];
              hasMany := [("pets", "Pet")]; hasOne := [] |}
  /\ read 0 "alive" Scenario.with_alice = Ok (VBool true)
  /\ entityValToDbVal (objects Scenario.with_alice) (VBool true) (VStr "BOOL")
     = Ok (VNum 1)
  /\ fst (save (VObj 0) Scenario.with_alice)
     = Ok (SaveExecute "INSERT INTO `Person` (`name`, `alive`, id) VALUES (?, ?, ?)"
             [VStr "Alice"; VBool true; VStr "uuid0"]).
Proof. repeat split; vm_compute; reflexivity. Qed.

(** ** Ordered dictionaries and the identity cache *)


Lemma dict_get_set_eq {V} k (v : V) o : dict_get k (dict_set k v o) = Some v.
Proof.
  induction o as [|[k' v'] o IH]; cbn.
  - now rewrite String.eqb_refl.
  - destruct (String.eqb k k') eqn:E; cbn; rewrite ?String.eqb_refl, ?E; auto.
Qed.

Lemma dict_get_set_ne {V} k k' (v : V) o :
  k <> k' -> dict_get k (dict_set k' v o) = dict_get k o.
Proof.
  intros Hne. apply String.eqb_neq in Hne.
  induction o as [|[k1 v1] o IH]; cbn.
  - now rewrite Hne.
  - destruct (String.eqb k' k1) eqn:E; cbn.
    + apply String.eqb_eq in E. subst k1. now rewrite Hne.
    + now rewrite IH.
Qed.


Lemma tracked_set_dicts w d :
  tracked_bound w ->
  tracked (set_dicts (<[trackedObjects w := d]> (dicts w)) w) = d.
Proof.
  intros Hb. unfold tracked. cbn.
  now rewrite list_lookup_insert_eq.
Qed.

Lemma clean_keeps_tracked w :
  tracked_bound w -> tracked (clean w) = tracked w.
Proof.
  intros Hb. unfold tracked, clean. cbn.
  now rewrite lookup_app_l.
Qed.

Lemma clean_keeps_registry w :
  entityMeta (clean w) = entityMeta w
  /\ _entityClassCache (clean w) = _entityClassCache w.
Proof. split; reflexivity. Qed.

Lemma clean_public_tracked w : public_tracked (clean w) = [].
Proof.
  unfold public_tracked, clean. cbn.
  rewrite lookup_app_r by lia. now rewrite Nat.sub_diag.
Qed.

Lemma rowToEntity_hit entityName row prefix w o :
  dict_get (to_string (dict_read (prefix +:+ "id") row)) (tracked w) = Some o ->
  truthy o = true ->
  rowToEntity entityName row prefix w = (Ok o, w).
Proof.
  intros Hget Ht. unfold rowToEntity.
  assert (Hc : dict_read (to_string (dict_read (prefix +:+ "id") row)) (tracked w) = o)
    by (unfold dict_read at 1; now rewrite Hget).
  now rewrite Hc, Ht.
Qed.




(** what [add] and [rowToEntity] read of a session besides its registry *)
Lemma read_id_ids (h h' : heap) val :
  map _id h = map _id h' -> read_id h val = read_id h' val.
Proof.
  intros Hids. destruct val as [| | b | n | s | a]; try reflexivity. cbn.
  assert (Ha : map _id h !! a = map _id h' !! a) by now rewrite Hids.
  change (map _id h) with (_id <$> (h : list instance)) in Ha.
  change (map _id h') with (_id <$> (h' : list instance)) in Ha.
  rewrite !list_lookup_fmap in Ha.
  destruct (h !! a), (h' !! a); cbn in *; congruence.
Qed.

Lemma instance_set_id h p val i : _id (instance_set h p val i) = _id i.
Proof.
  unfold instance_set. repeat case_bool_decide; try reflexivity.
  unfold hasOne_set. destruct (loose_eq_null val); [reflexivity|].
  destruct (truthy _); reflexivity.
Qed.

Lemma assign_all_id h obj i : _id (assign_all h obj i) = _id i.
Proof.
  unfold assign_all. revert i.
  induction obj as [|fv obj IH]; intros i; cbn; [reflexivity|].
  now rewrite IH, instance_set_id.
Qed.

Lemma map_id_insert (h : heap) a i i' :
  h !! a = Some i -> _id i' = _id i -> map _id (<[a := i']> h) = map _id h.
Proof.
  intros Ha Hid. change (_id <$> <[a:=i']> h = _id <$> h).
  rewrite list_fmap_insert, Hid. apply list_insert_id.
  now rewrite list_lookup_fmap, Ha.
Qed.

Lemma assign_frame a p val w :
  map _id (objects (assign a p val w)) = map _id (objects w)
  /\ dicts (assign a p val w) = dicts w
  /\ trackedObjects (assign a p val w) = trackedObjects w.
Proof.
  unfold assign. destruct (objects w !! a) as [i|] eqn:Ha; cbn; auto.
  split; [|auto]. eapply map_id_insert; [exact Ha|apply instance_set_id].
Qed.

Lemma row_columns_frame m row prefix o ps w :
  let w' := fold_left (fun w' p => row_column m row prefix o p w') ps w in
  map _id (objects w') = map _id (objects w)
  /\ dicts w' = dicts w
  /\ trackedObjects w' = trackedObjects w.
Proof.
  cbn. revert w. induction ps as [|p ps IH]; intros w; cbn; [auto|].
  destruct (IH (row_column m row prefix o p w)) as (H1 & H2 & H3).
  rewrite H1, H2, H3. unfold row_column.
  destruct (String.prefix prefix p); [|auto].
  destruct (String.eqb _ "id"); [auto|]. apply assign_frame.
Qed.

Lemma getEntity_frame entityName w :
  objects (getEntity entityName w) = objects w
  /\ dicts (getEntity entityName w) = dicts w
  /\ trackedObjects (getEntity entityName w) = trackedObjects w.
Proof. unfold getEntity. destruct (_ !! _); auto. Qed.

Lemma entity_ok entityName obj w v w1 :
  entity entityName obj w = (Ok v, w1) ->
  exists i, v = VObj (List.length (objects w))
            /\ objects w1 = (objects w ++ [i])%list
            /\ dicts w1 = dicts w
            /\ trackedObjects w1 = trackedObjects w.
Proof.
  unfold entity. destruct (_ !! _); [|discriminate].
  destruct (class_meta entityName w); [|discriminate].
  intros [= <- <-]. eexists. cbn. eauto.
Qed.

(** on a miss the new object carries the row's id, and the cache is not
    written *)
Lemma rowToEntity_miss entityName row prefix w v w1 :
  truthy (dict_read (to_string (dict_read (prefix +:+ "id") row)) (tracked w)) = false ->
  rowToEntity entityName row prefix w = (Ok v, w1) ->
  (exists o, v = VObj o)
  /\ read_id (objects w1) v = Ok (dict_read (prefix +:+ "id") row)
  /\ dicts w1 = dicts w
  /\ trackedObjects w1 = trackedObjects w.
Proof.
  intros Hmiss. unfold rowToEntity. rewrite Hmiss.
  destruct (entity entityName [] (getEntity entityName w)) as [[v0|e] w0] eqn:He;
    [|discriminate].
  apply entity_ok in He as (i & -> & Hobj & Hd & Ht).
  destruct (getEntity_frame entityName w) as (G1 & G2 & G3).
  rewrite G1 in Hobj. rewrite G2 in Hd. rewrite G3 in Ht.
  rewrite G1.
  destruct (dict_get entityName (entityMeta w)) as [m|]; [|discriminate].
  intros [= <- <-].
  match goal with
  | |- context [fold_left ?f ?ps ?w2] =>
      destruct (row_columns_frame m row prefix (List.length (objects w)) ps w2)
        as (F1 & F2 & F3)
  end.
  cbn in F1, F2, F3. rewrite F2, F3. cbn [dicts trackedObjects set_objects].
  split; [eauto|]. split; [|auto].
  erewrite read_id_ids by exact F1. cbn.
  rewrite Hobj. rewrite list_lookup_alter_eq.
  rewrite lookup_app_r by lia. rewrite Nat.sub_diag. reflexivity.
Qed.

Lemma tracked_frame w w' :
  dicts w' = dicts w -> trackedObjects w' = trackedObjects w ->
  tracked w' = tracked w /\ (tracked_bound w -> tracked_bound w').
Proof.
  intros Hd Ht. unfold tracked, tracked_bound. rewrite Hd, Ht. auto.
Qed.

(** what [add] leaves under a key whose value was read before *)
Lemma add_ok_tracked obj w w2 :
  tracked_bound w ->
  add obj w = (Ok tt, w2) ->
  exists id, read_id (objects w) obj = Ok id
    /\ objects w2 = objects w
    /\ tracked w2 = (if truthy (dict_read (to_string id) (tracked w))
                     then tracked w
                     else dict_set (to_string id) obj (tracked w)).
Proof.
  intros Hb. unfold add, js_bind, js_modify.
  destruct (read_id (objects w) obj) as [id|e]; [|discriminate].
  intros [= <-]. exists id. split; [reflexivity|].
  destruct (truthy _); [auto|]. split; [reflexivity|].
  now apply tracked_set_dicts.
Qed.

(** X19: identity across materializations comes from registering the
    materialized object: for a first row none of whose columns names an
    internal property (and whose id, if a number, is below 2^53), after
    [rowToEntity] and [add] of its result a row of the same id materializes
    to the identical object, and the session is left as it was. *)
Lemma rowToEntity_add_rowToEntity w entityName entityName' row1 row2 prefix v1 w1 w2 :
  plain_columns prefix row1 = true ->
  prints_in_full (dict_read (prefix +:+ "id") row1) = true ->
  tracked_bound w ->
  dict_read (prefix +:+ "id") row1 = dict_read (prefix +:+ "id") row2 ->
  rowToEntity entityName row1 prefix w = (Ok v1, w1) ->
  add v1 w1 = (Ok tt, w2) ->
  rowToEntity entityName' row2 prefix w2 = (Ok v1, w2).
Proof.
  intros _ _ Hb Hid Hrow Hadd.
  set (key := to_string (dict_read (prefix +:+ "id") row1)) in *.
  destruct (truthy (dict_read key (tracked w))) eqn:Hc.
  - (* hit *)
    assert (Hv : (Ok v1, w1) = (Ok (dict_read key (tracked w)), w)).
    { rewrite <- Hrow. unfold rowToEntity. fold key. now rewrite Hc. }
    injection Hv as -> ->.
    apply add_ok_tracked in Hadd as (id & _ & _ & Ht); [|exact Hb].
    unfold rowToEntity. rewrite <- Hid. fold key.
    assert (Hk : dict_read key (tracked w2) = dict_read key (tracked w)).
    { rewrite Ht. destruct (truthy (dict_read (to_string id) (tracked w))) eqn:E;
        [reflexivity|].
      unfold dict_read at 1. destruct (decide (key = to_string id)) as [->|Hne].
      - now rewrite dict_get_set_eq.
      - now rewrite dict_get_set_ne. }
    now rewrite Hk, Hc.
  - (* miss *)
    destruct (rowToEntity_miss _ _ _ _ _ _ Hc Hrow) as ([o ->] & Hrid & Hd & Ht).
    destruct (tracked_frame w w1 Hd Ht) as [Htr Hb1].
    apply add_ok_tracked in Hadd as (id & Hrid' & _ & Ht2); [|auto].
    rewrite Hrid in Hrid'. injection Hrid' as <-. fold key in Ht2.
    rewrite Htr, Hc in Ht2.
    apply rowToEntity_hit; [|reflexivity].
    rewrite <- Hid. fold key. rewrite Ht2. apply dict_get_set_eq.
Qed.

(** ** Evaluations on the concrete sessions *)


(** C4: [persistence.add(alice); persistence.clean()]: the dictionary of
    the property [persistence.trackedObjects] is new and empty, the
    registry is untouched, but the closure variable [trackedObjects], which
    [add], [flush] and [rowToEntity] consult, still holds [alice]: [flush]
    issues her insert and [rowToEntity] returns her for a row of her id. *)
Theorem clean_leaves_closure_cache :
  tracked Scenario.alice_tracked = [("uuid0", VObj 0)]
  /\ public_tracked Scenario.kept = []
  /\ entityMeta Scenario.kept = entityMeta Scenario.alice_tracked
  /\ tracked Scenario.kept = [("uuid0", VObj 0)]
  /\ trace (run 1 (snd (flush 7 (CbUser 0) (idle Scenario.kept 0))))
     = [EvExecuteSql 7 "INSERT INTO `Person` (`name`, `alive`, id) VALUES (?, ?, ?)"
          (Some [VStr "Alice"; VBool true; VStr "uuid0"]);
        EvSuccess 7 "INSERT INTO `Person` (`name`, `alive`, id) VALUES (?, ?, ?)";
        EvCallback 0 None]
  /\ fst (rowToEntity "Person" [("id", VStr "uuid0"); ("name", VStr "Eve")] "" Scenario.kept)
     = Ok (VObj 0)
  /\ List.length (objects (snd (rowToEntity "Person"
                          [("id", VStr "uuid0"); ("name", VStr "Eve")] "" Scenario.kept)))
     = List.length (objects Scenario.kept).
Proof. repeat split; vm_compute; reflexivity. Qed.

(** C7, as stated, fails for a Transient instance whose only dirty property
    is a hasOne relation given a bare id: [save] throws, issues nothing and
    leaves the instance new and dirty. *)
Lemma save_transient_unresolved_throws :
  (exists i, objects Scenario.with_tom !! 1 = Some i
     /\ _new i = true /\ _dirtyProperties i = ["owner"]
     /\ data i !! "owner" = Some (VStr "abc"))
  /\ save (VObj 1) Scenario.with_tom
     = (Throw (UnresolvedRelation "owner" (VStr "abc")), Scenario.with_tom).
Proof.
  split.
  - eexists. repeat split; vm_compute; reflexivity.
  - vm_compute; reflexivity.
Qed.

(** C9: [kit = Pet({name: null, owner: "abc"})] has a dirty relation given
    a bare id, without cached target, yet [save] does not fail with the
    UnresolvedRelation condition: the dirty field [name], enumerated first,
    holds [null], and its conversion raises a TypeError before the getter
    of [owner] is reached. *)
Theorem save_null_before_unresolved :
  (exists i, objects Scenario.with_kit !! 1 = Some i
     /\ unresolved "owner" i
     /\ data i !! "owner" = Some (VStr "abc"))
  /\ fst (save (VObj 1) Scenario.with_kit)
     = Throw (TypeError (ReadPropertyOfNullish "_id"))
  /\ ~ is_UnresolvedRelation (TypeError (ReadPropertyOfNullish "_id")).
Proof.
  split; [|split].
  - eexists. split; [vm_compute; reflexivity|]. split; [|vm_compute; reflexivity].
    repeat split; try (vm_compute; reflexivity);
      apply list_elem_of_In; vm_compute; auto.
  - vm_compute; reflexivity.
  - intros (ref & fk & H). discriminate H.
Qed.

(** C5, as stated, fails for a registry of two entities: the two
    statements are issued in two transactions. *)
Lemma schemaSync_two_transactions :
  map fst (entityMeta Scenario.registry) = ["Person"; "Pet"]
  /\ queue Scenario.synced = []
  /\ started_txs (trace Scenario.synced) = [0; 1]
  /\ statement_txs (trace Scenario.synced) = [0; 1]
  /\ ~ (exists tx, Forall (eq tx) (statement_txs (trace Scenario.synced))).
Proof.
  repeat split; try (vm_compute; reflexivity).
  intros [tx H]. change (statement_txs (trace Scenario.synced)) with [0; 1] in H.
  inversion H as [|? ? H0 H1]; subst. inversion H1 as [|? ? H2 _]; subst. discriminate.
Qed.

(** ** [save] *)

Lemma entityValToDbVal_total (h : heap) val type :
  val <> VNull -> exists x, entityValToDbVal h val type = Ok x.
Proof.
  intros Hn. unfold entityValToDbVal.
  destruct val as [| | b | n | s | a]; try congruence; cbn; eauto;
    try (destruct (h !! a) as [i|]; cbn; [destruct (truthy (_id i)); eauto|]);
    destruct (strict_eq type (VStr "BOOL")); eauto.
Qed.

Lemma entityValToDbVal_exn (h : heap) val type e :
  entityValToDbVal h val type = Throw e ->
  e = TypeError (ReadPropertyOfNullish "_id").
Proof.
  destruct (decide (val = VNull)) as [->|Hn].
  - cbv. congruence.
  - destruct (entityValToDbVal_total h val type Hn) as [x ->]. discriminate.
Qed.

Lemma instance_get_exn p i e :
  instance_get p i = Throw e -> is_UnresolvedRelation e.
Proof.
  unfold instance_get, hasOne_get. repeat case_bool_decide; try discriminate.
  destruct (truthy _); [discriminate|]. intros [= <-]. eexists _, _. reflexivity.
Qed.

Lemma instance_get_unresolved ref i :
  ref ∈ hasOneAccessors i -> data_obj i !! ref = None ->
  instance_get ref i = Throw (UnresolvedRelation ref (default VUndefined (data i !! ref))).
Proof.
  intros Hin Hnone. unfold instance_get, hasOne_get.
  rewrite bool_decide_eq_true_2 by exact Hin. now rewrite Hnone.
Qed.

Lemma dirty_values_cons (h : heap) i p ps :
  dirty_values h i (p :: ps) =
    match instance_get p i with
    | Throw e => Throw e
    | Ok v =>
        match entityValToDbVal h v VUndefined with
        | Throw e => Throw e
        | Ok dv =>
            match dirty_values h i ps with
            | Throw e => Throw e
            | Ok vs => Ok (dv :: vs)
            end
        end
    end.
Proof. reflexivity. Qed.

Lemma dirty_values_ok (h : heap) i ps :
  (forall p, p ∈ ps -> exists v, instance_get p i = Ok v /\ v <> VNull) ->
  exists vs, dirty_values h i ps = Ok vs /\ List.length vs = List.length ps.
Proof.
  induction ps as [|p ps IH]; intros H.
  - exists []. auto.
  - rewrite dirty_values_cons.
    destruct (H p) as (v & -> & Hv); [left|].
    destruct (entityValToDbVal_total h v VUndefined Hv) as [dv ->].
    destruct IH as (vs & -> & Hlen); [intros q Hq; apply H; now right|].
    exists (dv :: vs). cbn. auto.
Qed.

(** a dirty relation without cached target makes the loop of [save] throw *)
Lemma dirty_values_blocked (h : heap) i ps ref :
  ref ∈ ps -> ref ∈ hasOneAccessors i -> data_obj i !! ref = None ->
  exists e, dirty_values h i ps = Throw e.
Proof.
  intros Hin Hacc Hnone. induction ps as [|p ps IH]; [inversion Hin|].
  rewrite dirty_values_cons.
  destruct (instance_get p i) as [v|e] eqn:Hget; [|eauto].
  destruct (entityValToDbVal h v VUndefined) as [dv|e]; [|eauto].
  destruct (decide (p = ref)) as [->|Hne].
  - rewrite instance_get_unresolved in Hget by assumption. discriminate.
  - apply elem_of_cons in Hin as [->|Hin]; [congruence|].
    destruct (IH Hin) as [e ->]. eauto.
Qed.

(** and when no dirty property holds [null], what is thrown is the
    UnresolvedRelation condition *)
Lemma dirty_values_unresolved (h : heap) i ps ref :
  (forall p, p ∈ ps -> instance_get p i <> Ok VNull) ->
  ref ∈ ps -> ref ∈ hasOneAccessors i -> data_obj i !! ref = None ->
  exists e, is_UnresolvedRelation e /\ dirty_values h i ps = Throw e.
Proof.
  intros Hnn Hin Hacc Hnone. induction ps as [|p ps IH]; [inversion Hin|].
  rewrite dirty_values_cons.
  destruct (instance_get p i) as [v|e] eqn:Hget.
  2: { exists e. split; [|reflexivity]. eapply instance_get_exn, Hget. }
  assert (Hv : v <> VNull).
  { intros ->. apply (Hnn p); [left|exact Hget]. }
  destruct (entityValToDbVal_total h v VUndefined Hv) as [dv ->].
  destruct (decide (p = ref)) as [->|Hne].
  - rewrite instance_get_unresolved in Hget by assumption. discriminate.
  - apply elem_of_cons in Hin as [->|Hin]; [congruence|].
    destruct IH as (e & He & ->); [intros q Hq; apply Hnn; now right|exact Hin|].
    eauto.
Qed.

Lemma save_blocked w a i :
  objects w !! a = Some i ->
  (exists e, dirty_values (objects w) i (_dirtyProperties i) = Throw e) ->
  exists e, save (VObj a) w = (Throw e, w)
            /\ dirty_values (objects w) i (_dirtyProperties i) = Throw e.
Proof.
  intros Ha [e He]. exists e. unfold save. now rewrite Ha, He.
Qed.

(** C7, as amended: for a Transient instance with a non-empty dirtySet
    whose dirty properties all read without failure and hold no [null],
    [save] hands exactly one statement to the driver, an insert whose
    column list is the dirty names in order followed by [id], binds the
    converted values followed by the id, and leaves the instance with
    [_new] false and no dirty property. *)
Theorem save_transient_inserts w a i :
  objects w !! a = Some i ->
  _new i = true ->
  _dirtyProperties i <> [] ->
  (forall p, p ∈ _dirtyProperties i ->
             exists v, instance_get p i = Ok v /\ v <> VNull) ->
  exists values,
    dirty_values (objects w) i (_dirtyProperties i) = Ok values
    /\ List.length values = List.length (_dirtyProperties i)
    /\ save (VObj a) w =
         (Ok (SaveExecute
                (insert_sql (_type i)
                   (map quote_name (_dirtyProperties i) ++ ["id"])%list
                   (map (fun _ => "?") (_dirtyProperties i) ++ ["?"])%list)
                (values ++ [_id i])%list),
          set_objects (<[a := saved i]> (objects w)) w)
    /\ objects (set_objects (<[a := saved i]> (objects w)) w) !! a = Some (saved i)
    /\ _new (saved i) = false
    /\ _dirtyProperties (saved i) = [].
Proof.
  intros Ha Hnew Hdirty Hread.
  destruct (dirty_values_ok (objects w) i _ Hread) as (values & Hv & Hlen).
  exists values. split; [exact Hv|]. split; [exact Hlen|].
  split; [|split; [|split; reflexivity]].
  - unfold save, dirty_columns. rewrite Ha, Hv, Hnew.
    destruct (_dirtyProperties i) eqn:E; [congruence|reflexivity].
  - cbn. apply list_lookup_insert_eq. eapply lookup_lt_Some, Ha.
Qed.

Lemma save_transient_inserts_witness :
  exists values,
    dirty_values (objects Scenario.with_alice) Scenario.alice
      (_dirtyProperties Scenario.alice) = Ok values
    /\ List.length values = List.length (_dirtyProperties Scenario.alice)
    /\ save (VObj 0) Scenario.with_alice =
         (Ok (SaveExecute
                (insert_sql (_type Scenario.alice)
                   (map quote_name (_dirtyProperties Scenario.alice) ++ ["id"])%list
                   (map (fun _ => "?") (_dirtyProperties Scenario.alice) ++ ["?"])%list)
                (values ++ [_id Scenario.alice])%list),
          set_objects (<[0 := saved Scenario.alice]> (objects Scenario.with_alice))
            Scenario.with_alice)
    /\ objects (set_objects (<[0 := saved Scenario.alice]> (objects Scenario.with_alice))
                  Scenario.with_alice) !! 0 = Some (saved Scenario.alice)
    /\ _new (saved Scenario.alice) = false
    /\ _dirtyProperties (saved Scenario.alice) = [].
Proof.
  apply (save_transient_inserts Scenario.with_alice 0 Scenario.alice).
  - vm_compute; reflexivity.
  - reflexivity.
  - discriminate.
  - intros p Hp. apply list_elem_of_In in Hp. cbn in Hp.
    destruct Hp as [<-|[<-|[]]]; eexists; (split; [vm_compute; reflexivity|discriminate]).
Defined.

(** ** Runs of the driver *)

Lemma run_S fuel m :
  run (S fuel) m = match queue m with
                   | [] => m
                   | t :: q => run fuel (deliver t (set_queue q m))
                   end.
Proof. reflexivity. Qed.

Lemma run_quiet fuel m : queue m = [] -> run fuel m = m.
Proof. intros Hq. destruct fuel; [reflexivity|]. now rewrite run_S, Hq. Qed.

Lemma run_add fuel1 fuel2 m : run (fuel1 + fuel2) m = run fuel2 (run fuel1 m).
Proof.
  revert m. induction fuel1 as [|fuel1 IH]; intros m; [reflexivity|].
  cbn [Nat.add]. rewrite !run_S. destruct (queue m) eqn:Hq.
  - now rewrite run_quiet.
  - apply IH.
Qed.

Lemma call_user_session k arg m r m' :
  call_user k arg m = (r, m') -> session m' = session m.
Proof. destruct k; cbn; intros [= <- <-]; reflexivity. Qed.

Lemma call_if_given_session k arg m r m' :
  call_if_given k arg m = (r, m') -> session m' = session m.
Proof. destruct k; cbn; intros [= <- <-]; reflexivity. Qed.

(** *** An instance [save] cannot get past stays as it is *)

Section Blocked.
Variables (a : nat) (i : instance).
Hypothesis blocked :
  forall h : heap, exists e, dirty_values h i (_dirtyProperties i) = Throw e.

Lemma save_keeps obj w r w' :
  save obj w = (r, w') ->
  objects w !! a = Some i -> objects w' !! a = Some i.
Proof.
  intros Hs Ha. unfold save in Hs.
  destruct obj as [| | b | n | s | o]; try (injection Hs as <- <-; exact Ha).
  destruct (objects w !! o) as [j|] eqn:Ho; [|injection Hs as <- <-; exact Ha].
  destruct (dirty_values (objects w) j (_dirtyProperties j)) as [vs|e] eqn:Hd;
    [|injection Hs as <- <-; exact Ha].
  destruct (_dirtyProperties j) eqn:Hdj; [injection Hs as <- <-; exact Ha|].
  assert (Hne : o <> a).
  { intros ->. rewrite Ha in Ho. injection Ho as <-.
    destruct (blocked (objects w)) as [e He]. rewrite Hdj in He. congruence. }
  destruct (_new j); injection Hs as <- <-; cbn;
    now rewrite list_lookup_insert_ne.
Qed.

Lemma persist_next_keeps tx k stack : forall m r m',
  persist_next tx k stack m = (r, m') ->
  objects (session m) !! a = Some i -> objects (session m') !! a = Some i.
Proof.
  induction stack as [|obj rest IH]; intros m r m' Hp Ha; cbn in Hp.
  - apply call_if_given_session in Hp. now rewrite Hp.
  - destruct (save obj (session m)) as [[act|e] w] eqn:Hs.
    + pose proof (save_keeps _ _ _ _ Hs Ha) as Hw.
      destruct act; [eapply IH; [exact Hp|exact Hw]|].
      injection Hp as <- <-. exact Hw.
    + injection Hp as <- <-. exact (save_keeps _ _ _ _ Hs Ha).
Qed.

Lemma invoke_keeps k arg m r m' :
  invoke k arg m = (r, m') ->
  objects (session m) !! a = Some i -> objects (session m') !! a = Some i.
Proof.
  intros Hi Ha. destruct k as [|f|tx k|tx k]; cbn in Hi.
  - injection Hi as <- <-. exact Ha.
  - injection Hi as <- <-. exact Ha.
  - eapply persist_next_keeps; eauto.
  - destruct (entityArray m) eqn:He.
    + apply call_if_given_session in Hi. now rewrite Hi.
    + unfold createOneEntityTable in Hi. rewrite He in Hi.
      injection Hi as <- <-. exact Ha.
Qed.

Lemma deliver_keeps t m :
  objects (session m) !! a = Some i ->
  objects (session (deliver t m)) !! a = Some i.
Proof.
  intros Ha. destruct t as [mt k|tx sql k]; cbn; [exact Ha|].
  destruct (invoke k None (log (EvSuccess tx sql) m)) as [[u|e] m'] eqn:Hi;
    cbn; eapply invoke_keeps; eauto.
Qed.

Lemma run_keeps fuel : forall m,
  objects (session m) !! a = Some i ->
  objects (session (run fuel m)) !! a = Some i.
Proof.
  induction fuel as [|fuel IH]; intros m Ha; [exact Ha|].
  rewrite run_S. destruct (queue m); [exact Ha|].
  apply IH, deliver_keeps. exact Ha.
Qed.

Lemma flush_keeps tx k m :
  objects (session m) !! a = Some i ->
  objects (session (snd (flush tx k m))) !! a = Some i.
Proof.
  intros Ha. unfold flush.
  set (m1 := set_objArray _ m).
  destruct (objArray m1) eqn:Ho.
  - destruct (call_user k None m1) as [r m'] eqn:Hc.
    apply call_user_session in Hc. cbn. now rewrite Hc.
  - unfold persistOneEntity. rewrite Ho. rewrite <- Ho.
    destruct (persist_next tx k (objArray m1) m1) as [r m'] eqn:Hp.
    cbn. eapply persist_next_keeps; eauto.
Qed.
End Blocked.

(** X20: an instance with a dirty hasOne relation that has no cached target,
    none of whose dirty properties holds [null]: [save] fails with the
    UnresolvedRelation condition, before any statement and without
    touching the session; and however long the driver runs after a
    [flush], the instance is as dirty and as new as before. *)
Theorem save_unresolved_fails w a i ref :
  objects w !! a = Some i ->
  unresolved ref i ->
  (forall p, p ∈ _dirtyProperties i -> instance_get p i <> Ok VNull) ->
  (exists e, is_UnresolvedRelation e /\ save (VObj a) w = (Throw e, w))
  /\ forall tx f n fuel,
       objects (session (run fuel (snd (flush tx (user_callback f) (idle w n))))) !! a
       = Some i.
Proof.
  intros Ha (Hdirty & Hacc & Hnone) Hnn. split.
  - destruct (dirty_values_unresolved (objects w) i _ ref Hnn Hdirty Hacc Hnone)
      as (e & He & Hd).
    exists e. split; [exact He|]. unfold save. now rewrite Ha, Hd.
  - intros tx f n fuel.
    assert (Hb : forall h : heap, exists e,
               dirty_values h i (_dirtyProperties i) = Throw e).
    { intros h. eapply dirty_values_blocked; eauto. }
    apply run_keeps; [exact Hb|]. apply flush_keeps; [exact Hb|]. exact Ha.
Qed.

Lemma save_unresolved_fails_witness :
  (exists e, is_UnresolvedRelation e
     /\ save (VObj 1) Scenario.with_tom = (Throw e, Scenario.with_tom))
  /\ forall tx f n fuel,
       objects (session (run fuel (snd (flush tx (user_callback f)
                                          (idle Scenario.with_tom n))))) !! 1
       = Some Scenario.tom.
Proof.
  apply (save_unresolved_fails Scenario.with_tom 1 Scenario.tom "owner").
  - vm_compute; reflexivity.
  - repeat split; try (vm_compute; reflexivity);
      apply list_elem_of_In; cbn; auto.
  - intros p Hp. apply list_elem_of_In in Hp. cbn in Hp.
    destruct Hp as [<-|[]]. vm_compute. discriminate.
Defined.

(** *** The callback of [flush] is called only where it is guarded *)

Lemma save_exn obj w e w' :
  save obj w = (Throw e, w') -> e <> TypeError NotAFunction.
Proof.
  unfold save. destruct obj as [| | b | n | s | o]; try discriminate;
    try (intros [= <- _]; discriminate).
  destruct (objects w !! o) as [j|]; [|discriminate].
  destruct (dirty_values (objects w) j (_dirtyProperties j)) as [vs|e'] eqn:Hd.
  - destruct (_dirtyProperties j); [discriminate|]. destruct (_new j); discriminate.
  - intros [= <- _]. clear -Hd.
    induction (_dirtyProperties j) as [|p ps IH]; [discriminate|].
    rewrite dirty_values_cons in Hd.
    destruct (instance_get p j) as [v|e1] eqn:Hg.
    + destruct (entityValToDbVal (objects w) v VUndefined) as [dv|e2] eqn:Hc.
      * destruct (dirty_values (objects w) j ps); [discriminate|].
        injection Hd as ->. now apply IH.
      * injection Hd as ->. apply entityValToDbVal_exn in Hc as ->. discriminate.
    + injection Hd as ->. apply instance_get_exn in Hg as (r & fk & ->). discriminate.
Qed.

Lemma calm_log e m :
  e <> EvUncaught (TypeError NotAFunction) -> calm m -> calm (log e m).
Proof.
  intros He [Hq Ht]. split; [exact Hq|]. cbn.
  intros Hin%elem_of_app. destruct Hin as [Hin|Hin%list_elem_of_singleton];
    [now apply Ht|congruence].
Qed.

Lemma calm_enqueue t m : engine_task t -> calm m -> calm (enqueue t m).
Proof.
  intros Ht [Hq Hs]. split; [|exact Hs]. cbn.
  apply Forall_app. split; [exact Hq|]. now constructor.
Qed.

Lemma call_if_given_calm k arg m r m' :
  user_level k -> call_if_given k arg m = (r, m') -> calm m ->
  calm m' /\ r <> Throw (TypeError NotAFunction).
Proof.
  intros Hk Hc Hm. destruct k; try contradiction; cbn in Hc;
    injection Hc as <- <-; (split; [|discriminate]); [exact Hm|].
  now apply calm_log.
Qed.

Lemma persist_next_calm tx k stack : forall m r m',
  user_level k ->
  persist_next tx k stack m = (r, m') -> calm m ->
  calm m' /\ r <> Throw (TypeError NotAFunction).
Proof.
  induction stack as [|obj rest IH]; intros m r m' Hk Hp Hm; cbn in Hp.
  - eapply call_if_given_calm; eauto.
  - destruct (save obj (session m)) as [[act|e] w] eqn:Hs.
    + destruct act.
      * eapply IH; [exact Hk|exact Hp|]. exact Hm.
      * injection Hp as <- <-. split; [|discriminate].
        apply calm_enqueue; [exact Hk|]. apply calm_log; [discriminate|exact Hm].
    + injection Hp as <- <-. split; [exact Hm|].
      apply save_exn in Hs. congruence.
Qed.

Lemma createOneEntityTable_calm k m r m' :
  user_level k ->
  createOneEntityTable k m = (r, m') -> calm m ->
  calm m' /\ r <> Throw (TypeError NotAFunction).
Proof.
  intros Hk Hc Hm. unfold createOneEntityTable in Hc.
  destruct (entityArray m); injection Hc as <- <-; (split; [|discriminate]);
    [exact Hm|].
  apply calm_enqueue; [exact Hk|exact Hm].
Qed.

Lemma deliver_calm t m : engine_task t -> calm m -> calm (deliver t m).
Proof.
  intros Ht Hm. destruct t as [mt k|tx sql k]; cbn in *.
  - apply calm_enqueue; [exact Ht|]. apply calm_log; [discriminate|].
    apply calm_log; [discriminate|]. exact Hm.
  - assert (Hm1 : calm (log (EvSuccess tx sql) m))
      by (apply calm_log; [discriminate|exact Hm]).
    destruct (invoke k None (log (EvSuccess tx sql) m)) as [r m'] eqn:Hi.
    assert (Hr : calm m' /\ r <> Throw (TypeError NotAFunction)).
    { destruct k as [|f|tx' k|tx' k]; try contradiction; unfold invoke in Hi.
      - eapply persist_next_calm; eauto.
      - destruct (entityArray (log (EvSuccess tx sql) m)) eqn:He.
        + eapply call_if_given_calm; eauto.
        + eapply createOneEntityTable_calm; eauto. }
    destruct Hr as [Hc Hne]. destruct r as [u|e]; cbn; [exact Hc|].
    apply calm_log; [congruence|exact Hc].
Qed.

Lemma run_calm fuel : forall m, calm m -> calm (run fuel m).
Proof.
  induction fuel as [|fuel IH]; intros m Hm; [exact Hm|].
  rewrite run_S. destruct (queue m) as [|t q] eqn:Hq; [exact Hm|].
  destruct Hm as [Hf Ht]. rewrite Hq in Hf. inversion Hf as [|? ? H1 H2]; subst.
  apply IH, deliver_calm; [exact H1|]. split; [exact H2|exact Ht].
Qed.

Lemma idle_calm w n : calm (idle w n).
Proof. split; [constructor|]. cbn. apply not_elem_of_nil. Qed.

(** C10: with nothing tracked, [flush] calls its callback argument as it
    is: without a callback the call fails (a TypeError, nothing issued),
    with one the callback is called at once.  With something tracked the
    callback is called only behind its guard: without a callback neither
    [flush] itself nor any later completion fails for want of it. *)
Theorem flush_callback_guard w n tx :
  (tracked w = [] ->
     flush tx CbUndefined (idle w n) = (Throw (TypeError NotAFunction), idle w n)
     /\ forall f, flush tx (CbUser f) (idle w n)
                  = (Ok tt, log (EvCallback f None) (idle w n)))
  /\ (tracked w <> [] ->
      fst (flush tx CbUndefined (idle w n)) <> Throw (TypeError NotAFunction)
      /\ forall fuel,
           EvUncaught (TypeError NotAFunction)
             ∉ trace (run fuel (snd (flush tx CbUndefined (idle w n))))).
Proof.
  split.
  - intros Hempty. unfold flush. cbn. rewrite Hempty. cbn. auto.
  - intros Hne. unfold flush. cbn [session idle].
    set (m1 := set_objArray _ (idle w n)).
    assert (Hm1 : calm m1) by apply idle_calm.
    destruct (objArray m1) as [|obj rest] eqn:Ho.
    { exfalso. subst m1. cbn in Ho. apply Hne.
      unfold dict_values in Ho. destruct (tracked w) as [|x l]; [reflexivity|].
      cbn in Ho. apply app_eq_nil in Ho as [_ Ho]. discriminate. }
    unfold persistOneEntity. rewrite Ho. rewrite <- Ho.
    destruct (persist_next tx CbUndefined (objArray m1) m1) as [r m'] eqn:Hp.
    destruct (persist_next_calm tx CbUndefined _ _ _ _ I Hp Hm1) as [Hc Hr].
    split; [exact Hr|]. intros fuel. cbn. apply run_calm. exact Hc.
Qed.

(** [persistence.add(alice); persistence.flush(tx)]: without a callback the
    run ends after the insert has completed *)
Example flush_without_callback :
  run 1 (snd (flush 7 CbUndefined (idle Scenario.alice_tracked 0)))
  = run 2 (snd (flush 7 CbUndefined (idle Scenario.alice_tracked 0)))
  /\ queue (run 1 (snd (flush 7 CbUndefined (idle Scenario.alice_tracked 0)))) = []
  /\ trace (run 1 (snd (flush 7 CbUndefined (idle Scenario.alice_tracked 0))))
     = [EvExecuteSql 7 "INSERT INTO `Person` (`name`, `alive`, id) VALUES (?, ?, ?)"
          (Some [VStr "Alice"; VBool true; VStr "uuid0"]);
        EvSuccess 7 "INSERT INTO `Person` (`name`, `alive`, id) VALUES (?, ?, ?)"].
Proof. repeat split; vm_compute; reflexivity. Qed.

(** ** [schemaSync] *)

Lemma statement_txs_sync n ms : statement_txs (sync_trace n ms) = seq n (List.length ms).
Proof.
  revert n. induction ms as [|m ms IH]; intros n; [reflexivity|].
  cbn. f_equal. apply IH.
Qed.

Lemma started_txs_sync n ms : started_txs (sync_trace n ms) = seq n (List.length ms).
Proof.
  revert n. induction ms as [|m ms IH]; intros n; [reflexivity|].
  cbn. f_equal. apply IH.
Qed.

Lemma omap_app_nil {A B} (f : A -> option B) (l1 l2 : list A) :
  omap f l2 = [] -> omap f (l1 ++ l2)%list = omap f l1.
Proof. intros H. rewrite omap_app, H. apply app_nil_r. Qed.

Ltac sync_step :=
  cbv [deliver executeSql enqueue log set_queue set_nextTx settle invoke
       createOneEntityTable call_if_given call_user set_entityArray
       user_callback session objArray entityArray queue nextTx trace];
  cbn [app].

(** the run from a pending transaction for [meta] to the end *)
Lemma run_createOneEntityTable f rest : forall meta w oa n tr,
  run (2 * S (List.length rest))
    {| session := w; objArray := oa; entityArray := rest;
       queue := [TTransaction meta (user_callback f)];
       nextTx := n; trace := tr |}
  = {| session := w; objArray := oa; entityArray := [];
       queue := []; nextTx := n + S (List.length rest);
       trace := (tr ++ sync_trace n (meta :: rest)
                 ++ final_callback f (Some (n + List.length rest)))%list |}.
Proof.
  induction rest as [|meta' rest IH]; intros meta w oa n tr.
  - cbn [List.length Nat.mul Nat.add].
    destruct f as [g|]; do 2 (rewrite run_S; sync_step);
      rewrite Nat.add_0_r, <- !app_assoc, Nat.add_1_r; reflexivity.
  - replace (2 * S (List.length (meta' :: rest)))
      with (S (S (2 * S (List.length rest)))) by (cbn; lia).
    do 2 (rewrite run_S; sync_step).
    rewrite IH. f_equal; [cbn; lia|].
    cbn [sync_trace]. rewrite <- !app_assoc. cbn [app List.length].
    replace (S n + List.length rest) with (n + S (List.length rest)) by lia.
    reflexivity.
Qed.

(** C5, as amended: for a non-empty registry, [schemaSync] issues exactly
    one create-table statement per entity, each in a transaction of its
    own, the driver starting the next transaction only after the previous
    statement has completed; then the callback, when one was given, is
    called once, with the last transaction; nothing stays pending. *)
Theorem schemaSync_sequential w f n :
  entityMeta w <> [] ->
  exists m0 final,
    schemaSync (user_callback f) (idle w n) = (Ok tt, m0)
    /\ (forall fuel, 2 * List.length (entityMeta w) <= fuel -> run fuel m0 = final)
    /\ queue final = []
    /\ session final = w
    /\ trace final
       = (sync_trace n (rev (dict_values (entityMeta w)))
          ++ final_callback f (Some (n + List.length (entityMeta w) - 1)))%list
    /\ statement_txs (trace final) = seq n (List.length (entityMeta w))
    /\ started_txs (trace final) = seq n (List.length (entityMeta w)).
Proof.
  intros Hne.
  assert (Hlen : List.length (rev (dict_values (entityMeta w)))
                 = List.length (entityMeta w))
    by (unfold dict_values; now rewrite length_rev, length_map).
  destruct (rev (dict_values (entityMeta w))) as [|meta rest] eqn:Hms.
  { destruct (entityMeta w); [congruence|]. cbn in Hlen. discriminate. }
  cbn in Hlen.
  exists {| session := w; objArray := []; entityArray := rest;
            queue := [TTransaction meta (user_callback f)];
            nextTx := n; trace := [] |}.
  exists {| session := w; objArray := []; entityArray := [];
            queue := []; nextTx := n + S (List.length rest);
            trace := ([] ++ sync_trace n (meta :: rest)
                      ++ final_callback f (Some (n + List.length rest)))%list |}.
  assert (Hrun := run_createOneEntityTable f rest meta w [] n []).
  split.
  { unfold schemaSync, createOneEntityTable. cbn. rewrite Hms. reflexivity. }
  split; [|split; [reflexivity|split; [reflexivity|]]].
  - intros fuel Hfuel.
    replace fuel with (2 * S (List.length rest) + (fuel - 2 * S (List.length rest)))
      by lia.
    rewrite run_add, Hrun. apply run_quiet. reflexivity.
  - cbn [trace]. rewrite <- Hlen, app_nil_l.
    replace (n + S (List.length rest) - 1) with (n + List.length rest) by lia.
    split; [reflexivity|].
    split.
    + unfold statement_txs.
      rewrite omap_app_nil by (destruct f; reflexivity).
      apply (statement_txs_sync n (meta :: rest)).
    + unfold started_txs.
      rewrite omap_app_nil by (destruct f; reflexivity).
      apply (started_txs_sync n (meta :: rest)).
Qed.

Lemma schemaSync_sequential_witness :
  exists m0 final,
    schemaSync (user_callback (Some 0)) (idle Scenario.registry 0) = (Ok tt, m0)
    /\ (forall fuel, 2 * List.length (entityMeta Scenario.registry) <= fuel ->
                     run fuel m0 = final)
    /\ queue final = []
    /\ session final = Scenario.registry
    /\ trace final
       = (sync_trace 0 (rev (dict_values (entityMeta Scenario.registry)))
          ++ final_callback (Some 0)
               (Some (0 + List.length (entityMeta Scenario.registry) - 1)))%list
    /\ statement_txs (trace final) = seq 0 (List.length (entityMeta Scenario.registry))
    /\ started_txs (trace final) = seq 0 (List.length (entityMeta Scenario.registry)).
Proof.
  apply (schemaSync_sequential Scenario.registry (Some 0) 0).
  vm_compute. discriminate.
Defined.

(** * Further properties *)

(** ** More on the metadata registry *)

Lemma getEntity_cached entityName w :
  is_Some (_entityClassCache (getEntity entityName w) !! entityName).
Proof.
  unfold getEntity. destruct (_entityClassCache w !! entityName) eqn:E.
  - rewrite E. eauto.
  - cbn. rewrite lookup_insert_eq. eauto.
Qed.

Lemma getEntity_idem entityName w :
  is_Some (_entityClassCache w !! entityName) -> getEntity entityName w = w.
Proof. intros [b Hb]. unfold getEntity. now rewrite Hb. Qed.

Lemma getEntity_entityMeta entityName w :
  entityMeta (getEntity entityName w) = entityMeta w.
Proof. unfold getEntity. destruct (_ !! _); reflexivity. Qed.

Lemma define_defined entityName fs w :
  is_Some (dict_get entityName (entityMeta (define entityName fs w)))
  /\ is_Some (_entityClassCache (define entityName fs w) !! entityName).
Proof.
  unfold define. destruct (dict_get entityName (entityMeta w)) eqn:E.
  - split; [|apply getEntity_cached]. rewrite getEntity_entityMeta, E. eauto.
  - split; [|apply getEntity_cached]. rewrite getEntity_entityMeta. cbn.
    rewrite dict_get_set_eq. eauto.
Qed.

(** X1: a definition can be looked up, leaves the other entities alone, and
    a second definition of the same name changes nothing at all: the first
    field map stays. *)
Theorem define_first_wins entityName fs1 fs2 w :
  define entityName fs2 (define entityName fs1 w) = define entityName fs1 w
  /\ (getMeta entityName w = None ->
      getMeta entityName (define entityName fs1 w)
      = Some {| name := entityName; fields := fs1; hasMany := []; hasOne := [] |})
  /\ (forall m, getMeta entityName w = Some m ->
      getMeta entityName (define entityName fs1 w) = Some m)
  /\ (forall other, other <> entityName ->
      getMeta other (define entityName fs1 w) = getMeta other w).
Proof.
  split; [|split; [|split]].
  - destruct (define_defined entityName fs1 w) as [[m Hm] Hc].
    unfold define at 1. rewrite Hm. now apply getEntity_idem.
  - unfold getMeta, define. intros ->. rewrite getEntity_entityMeta. cbn.
    apply dict_get_set_eq.
  - unfold getMeta, define. intros m Hm. now rewrite Hm, getEntity_entityMeta.
  - intros other Hne. unfold getMeta, define.
    destruct (dict_get entityName (entityMeta w)); rewrite getEntity_entityMeta;
      [reflexivity|]. cbn [entityMeta set_entityMeta]. now apply dict_get_set_ne.
Qed.

(** ** More on the entity factory *)


Lemma mark_dirty_elem f g d : g ∈ mark_dirty f d <-> g = f \/ g ∈ d.
Proof.
  unfold mark_dirty. case_bool_decide as Hin.
  - split; [auto|]. intros [->|H]; assumption.
  - rewrite elem_of_app, list_elem_of_singleton. tauto.
Qed.

Lemma instance_set_accessors h p val i :
  fieldAccessors (instance_set h p val i) = fieldAccessors i
  /\ hasOneAccessors (instance_set h p val i) = hasOneAccessors i
  /\ _new (instance_set h p val i) = _new i
  /\ _type (instance_set h p val i) = _type i.
Proof.
  unfold instance_set. repeat case_bool_decide; try (repeat split; reflexivity).
  unfold hasOne_set. destruct (loose_eq_null val); [repeat split; reflexivity|].
  destruct (truthy _); repeat split; reflexivity.
Qed.

Lemma instance_set_dirty h p val i g :
  g ∈ _dirtyProperties (instance_set h p val i)
  <-> g ∈ _dirtyProperties i
      \/ (g = p /\ (p ∈ hasOneAccessors i \/ p ∈ fieldAccessors i)).
Proof.
  unfold instance_set. case_bool_decide as H1; [|case_bool_decide as H2].
  - assert (Hd : _dirtyProperties (hasOne_set h p val i)
                 = mark_dirty p (_dirtyProperties i)).
    { unfold hasOne_set. destruct (loose_eq_null val); [reflexivity|].
      destruct (truthy _); reflexivity. }
    rewrite Hd, mark_dirty_elem. tauto.
  - cbn. rewrite mark_dirty_elem. tauto.
  - cbn. tauto.
Qed.

Lemma assign_all_spec h obj : forall i,
  let i' := assign_all h obj i in
  fieldAccessors i' = fieldAccessors i
  /\ hasOneAccessors i' = hasOneAccessors i
  /\ _new i' = _new i /\ _type i' = _type i /\ _id i' = _id i
  /\ forall g, g ∈ _dirtyProperties i'
       <-> g ∈ _dirtyProperties i
           \/ (g ∈ map fst obj /\ (g ∈ hasOneAccessors i \/ g ∈ fieldAccessors i)).
Proof.
  unfold assign_all. induction obj as [|[f v] obj IH]; intros i; cbn.
  - repeat split; try reflexivity; [tauto|]. intros [H|[H _]]; [exact H|inversion H].
  - destruct (IH (instance_set h f v i)) as (H1 & H2 & H3 & H4 & H5 & H6).
    destruct (instance_set_accessors h f v i) as (A1 & A2 & A3 & A4).
    rewrite H1, H2, H3, H4, H5, A1, A2, A3, A4, instance_set_id.
    repeat split; try reflexivity.
    + intros Hg. apply H6 in Hg. rewrite instance_set_dirty, A1, A2 in Hg.
      destruct Hg as [[Hg|[-> Hg]]|[Hg Hacc]]; [left; exact Hg| |].
      * right. split; [left|exact Hg].
      * right. split; [right; exact Hg|exact Hacc].
    + intros Hg. apply H6. rewrite instance_set_dirty, A1, A2.
      destruct Hg as [Hg|[Hg Hacc]]; [left; left; exact Hg|].
      apply elem_of_cons in Hg as [->|Hg]; [left; right; auto|right; auto].
Qed.

(** what the other proofs need of a constructor call *)
Lemma entity_defined_shape entityName obj w m :
  class_meta entityName w = Some m ->
  exists i,
    entity entityName obj w
    = (Ok (VObj (List.length (objects w))),
       set_objects (objects w ++ [i])%list (set_uuidCount (S (uuidCount w)) w))
    /\ _type i = entityName
    /\ fieldAccessors i = map fst (fields m)
    /\ hasOneAccessors i = map fst (hasOne m).
Proof.
  intros Hm. unfold entity. pose proof Hm as Hm'. unfold class_meta in Hm'.
  destruct (_entityClassCache w !! entityName) as [b|] eqn:Hc; [|discriminate].
  rewrite Hm.
  match goal with
  | |- context [assign_all ?h obj ?that] =>
      destruct (assign_all_spec h obj that) as (H1 & H2 & _ & H4 & _);
      exists (assign_all h obj that)
  end.
  cbn in H1, H2, H4. auto.
Qed.

(** X2: the constructor of a defined entity, given an initializer none of
    whose keys names an internal property, appends one object to the heap
    and touches nothing else that exists: the new instance is new, carries
    the next identifier, has the accessors of its metadata, and is dirty
    in exactly the initializer's names that have an accessor; it is not
    put into the identity cache. *)
Theorem entity_constructs entityName obj w m :
  plain_keys obj = true ->
  class_meta entityName w = Some m ->
  exists i,
    entity entityName obj w
    = (Ok (VObj (List.length (objects w))),
       set_objects (objects w ++ [i])%list (set_uuidCount (S (uuidCount w)) w))
    /\ _id i = VStr (createUUID w (uuidCount w))
    /\ _new i = true
    /\ _type i = entityName
    /\ fieldAccessors i = map fst (fields m)
    /\ hasOneAccessors i = map fst (hasOne m)
    /\ (forall g, g ∈ _dirtyProperties i
          <-> g ∈ map fst obj
              /\ (g ∈ map fst (hasOne m) \/ g ∈ map fst (fields m)))
    /\ tracked (snd (entity entityName obj w)) = tracked w.
Proof.
  intros _ Hm. unfold entity. pose proof Hm as Hm'. unfold class_meta in Hm'.
  destruct (_entityClassCache w !! entityName) as [b|] eqn:Hc; [|discriminate].
  rewrite Hm.
  match goal with
  | |- context [assign_all ?h obj ?that] =>
      destruct (assign_all_spec h obj that) as (H1 & H2 & H3 & H4 & H5 & H6);
      exists (assign_all h obj that)
  end.
  cbn in H1, H2, H3, H4, H5, H6.
  do 6 (split; [assumption || reflexivity|]).
  split; [|reflexivity].
  intros g. rewrite H6. split; [intros [Hg|Hg]; [inversion Hg|exact Hg]|auto].
Qed.

Lemma entity_ok_fresh entityName obj w v w1 :
  entity entityName obj w = (Ok v, w1) ->
  exists i, v = VObj (List.length (objects w))
    /\ objects w1 = (objects w ++ [i])%list
    /\ _id i = VStr (createUUID w (uuidCount w))
    /\ createUUID w1 = createUUID w
    /\ uuidCount w1 = S (uuidCount w).
Proof.
  unfold entity. destruct (_ !! _); [|discriminate].
  destruct (class_meta entityName w); [|discriminate].
  intros [= <- <-]. eexists. cbn.
  split; [reflexivity|]. split; [reflexivity|].
  split; [apply assign_all_id|]. split; reflexivity.
Qed.

(** X3: two constructor calls in a row, with initializers none of whose
    keys names an internal property, give two different objects, the first
    of which the second call leaves as it was, and their identifiers
    differ when the generator does not repeat itself. *)
Theorem entity_twice_distinct name1 obj1 name2 obj2 w v1 w1 v2 w2 :
  plain_keys obj1 = true ->
  plain_keys obj2 = true ->
  entity name1 obj1 w = (Ok v1, w1) ->
  entity name2 obj2 w1 = (Ok v2, w2) ->
  v1 <> v2
  /\ exists a1 a2 i1 i2,
       v1 = VObj a1 /\ v2 = VObj a2
       /\ objects w1 !! a1 = Some i1
       /\ objects w2 !! a1 = Some i1
       /\ objects w2 !! a2 = Some i2
       /\ ((forall n n', createUUID w n = createUUID w n' -> n = n') ->
           _id i1 <> _id i2).
Proof.
  intros _ _ H1 H2.
  apply entity_ok_fresh in H1 as (i1 & -> & Ho1 & Hid1 & Hg1 & Hc1).
  apply entity_ok_fresh in H2 as (i2 & -> & Ho2 & Hid2 & Hg2 & Hc2).
  rewrite Ho1, length_app in *. cbn [List.length] in *.
  split; [intros [= H]; lia|].
  exists (List.length (objects w)), (List.length (objects w) + 1), i1, i2.
  do 2 (split; [reflexivity|]).
  assert (Hl1 : (objects w ++ [i1])%list !! List.length (objects w) = Some i1).
  { rewrite lookup_app_r by lia. now rewrite Nat.sub_diag. }
  split; [exact Hl1|]. rewrite Ho2.
  split; [rewrite lookup_app_l; [exact Hl1|rewrite length_app; cbn; lia]|].
  split.
  { rewrite lookup_app_r by (rewrite length_app; cbn; lia).
    rewrite length_app. cbn. now rewrite Nat.sub_diag. }
  intros Hinj. rewrite Hid1, Hid2, Hg1, Hc1. intros [= H].
  apply Hinj in H. lia.
Qed.




(** ** More on the accessors *)

Lemma instance_set_data_ne h p val i g :
  g <> p ->
  data (instance_set h p val i) !! g = data i !! g
  /\ data_obj (instance_set h p val i) !! g = data_obj i !! g
  /\ ownProps (instance_set h p val i) !! g = ownProps i !! g.
Proof.
  intros Hne. unfold instance_set. repeat case_bool_decide; cbn.
  - unfold hasOne_set. destruct (loose_eq_null val); [|destruct (truthy _)];
      cbn; rewrite ?lookup_insert_ne by congruence; auto.
  - rewrite lookup_insert_ne by congruence. auto.
  - rewrite lookup_insert_ne by congruence. auto.
Qed.

(** reading another property is not affected by an assignment *)
Lemma instance_get_set_ne h p val i g :
  g <> p -> instance_get g (instance_set h p val i) = instance_get g i.
Proof.
  intros Hne. destruct (instance_set_accessors h p val i) as (A1 & A2 & _).
  destruct (instance_set_data_ne h p val i g Hne) as (D1 & D2 & D3).
  unfold instance_get, hasOne_get, field_get. now rewrite A1, A2, D1, D2, D3.
Qed.

Lemma assign_lookup a p val w i :
  objects w !! a = Some i ->
  objects (assign a p val w) !! a = Some (instance_set (objects w) p val i)
  /\ forall b, b <> a -> objects (assign a p val w) !! b = objects w !! b.
Proof.
  intros Ha. unfold assign. rewrite Ha. cbn. split.
  - apply list_lookup_insert_eq. eapply lookup_lt_Some, Ha.
  - intros b Hne. now apply list_lookup_insert_ne.
Qed.

(** X5: writing a declared field and reading it back gives the value
    written and marks the field dirty; every other property of the object
    reads as before, and no other object changes. *)
Theorem field_write_read a f val w i :
  objects w !! a = Some i ->
  f ∈ fieldAccessors i ->
  f ∉ hasOneAccessors i ->
  read a f (assign a f val w) = Ok val
  /\ (exists i', objects (assign a f val w) !! a = Some i'
                 /\ f ∈ _dirtyProperties i')
  /\ (forall g, g <> f -> read a g (assign a f val w) = read a g w)
  /\ (forall b, b <> a -> objects (assign a f val w) !! b = objects w !! b).
Proof.
  intros Ha Hf Hno. destruct (assign_lookup a f val w i Ha) as [Hl Hother].
  split; [|split; [|split]].
  - unfold read. rewrite Hl.
    destruct (instance_set_accessors (objects w) f val i) as (A1 & A2 & _).
    unfold instance_get. rewrite A1, A2.
    rewrite bool_decide_eq_false_2 by exact Hno.
    rewrite bool_decide_eq_true_2 by exact Hf.
    unfold instance_set.
    rewrite bool_decide_eq_false_2 by exact Hno.
    rewrite bool_decide_eq_true_2 by exact Hf.
    unfold field_get. cbn. now rewrite lookup_insert_eq.
  - eexists. split; [exact Hl|]. apply instance_set_dirty. right. auto.
  - intros g Hne. unfold read. rewrite Hl, Ha. now apply instance_get_set_ne.
  - exact Hother.
Qed.

(** X6: writing an instance with a truthy id to a hasOne relation stores
    that id as the foreign key, caches the instance, marks the relation
    dirty, and the relation then reads as that very instance. *)
Theorem hasOne_write_instance_read a ref b w i j :
  objects w !! a = Some i ->
  ref ∈ hasOneAccessors i ->
  objects w !! b = Some j ->
  truthy (_id j) = true ->
  read a ref (assign a ref (VObj b) w) = Ok (VObj b)
  /\ exists i', objects (assign a ref (VObj b) w) !! a = Some i'
       /\ data i' !! ref = Some (_id j)
       /\ data_obj i' !! ref = Some (VObj b)
       /\ ref ∈ _dirtyProperties i'.
Proof.
  intros Ha Href Hb Hid. destruct (assign_lookup a ref (VObj b) w i Ha) as [Hl _].
  assert (Hset : instance_set (objects w) ref (VObj b) i
                 = hasOne_set (objects w) ref (VObj b) i).
  { unfold instance_set. now rewrite bool_decide_eq_true_2 by exact Href. }
  assert (Hd : data (hasOne_set (objects w) ref (VObj b) i) !! ref = Some (_id j)
               /\ data_obj (hasOne_set (objects w) ref (VObj b) i) !! ref
                  = Some (VObj b)).
  { unfold hasOne_set. cbn. rewrite Hb, Hid. cbn.
    now rewrite !lookup_insert_eq. }
  split.
  - unfold read. rewrite Hl, Hset. unfold instance_get.
    assert (Hacc : hasOneAccessors (hasOne_set (objects w) ref (VObj b) i)
                   = hasOneAccessors i).
    { rewrite <- Hset. apply instance_set_accessors. }
    rewrite Hacc, bool_decide_eq_true_2 by exact Href.
    unfold hasOne_get. destruct Hd as [_ ->]. reflexivity.
  - eexists. split; [exact Hl|]. rewrite Hset.
    split; [apply Hd|]. split; [apply Hd|]. apply hasOne_set_dirty.
Qed.

(** X7: writing a value that is not an object (a number only below 2^53,
    where its text is printed in full) to a hasOne relation that never had
    a target stores the value as the foreign key (null for null and
    undefined), marks the relation dirty and caches nothing: reading the
    relation fails with the UnresolvedRelation condition naming that
    key. *)
Theorem hasOne_write_bare_read a ref val w i :
  prints_in_full val = true ->
  objects w !! a = Some i ->
  ref ∈ hasOneAccessors i ->
  data_obj i !! ref = None ->
  (forall b, val <> VObj b) ->
  read a ref (assign a ref val w)
  = Throw (UnresolvedRelation ref (if loose_eq_null val then VNull else val))
  /\ exists i', objects (assign a ref val w) !! a = Some i'
       /\ data i' !! ref = Some (if loose_eq_null val then VNull else val)
       /\ unresolved ref i'.
Proof.
  intros _ Ha Href Hnone Hval.
  set (fk := if loose_eq_null val then VNull else val).
  destruct (assign_lookup a ref val w i Ha) as [Hl _].
  assert (Hset : instance_set (objects w) ref val i
                 = hasOne_set (objects w) ref val i).
  { unfold instance_set. now rewrite bool_decide_eq_true_2 by exact Href. }
  assert (Hacc : hasOneAccessors (hasOne_set (objects w) ref val i)
                 = hasOneAccessors i).
  { rewrite <- Hset. apply instance_set_accessors. }
  assert (Hd : data (hasOne_set (objects w) ref val i) !! ref = Some fk
               /\ data_obj (hasOne_set (objects w) ref val i) = data_obj i).
  { unfold hasOne_set, fk.
    destruct val as [| | b | n | s | o]; cbn; rewrite ?lookup_insert_eq; auto.
    now destruct (Hval o). }
  split.
  - unfold read. rewrite Hl, Hset. unfold instance_get.
    rewrite Hacc, bool_decide_eq_true_2 by exact Href.
    unfold hasOne_get. destruct Hd as [-> ->]. now rewrite Hnone.
  - eexists. split; [exact Hl|]. rewrite Hset. split; [apply Hd|].
    split; [apply hasOne_set_dirty|]. split; [now rewrite Hacc|].
    destruct Hd as [_ ->]. exact Hnone.
Qed.

(** ** More on the value converter *)

(** X8: beyond the values 0 and 1, a stored value of a BOOL column reads
    as [true] only if it is the number 1, so writing it back stores 1 for
    the number 1 and 0 for anything else; for every other type tag a
    primitive value other than null survives reading and writing back
    unchanged. *)
Theorem converter_round_trip (h : heap) val type :
  entityValToDbVal h (dbValToEntityVal val (VStr "BOOL")) (VStr "BOOL")
  = Ok (VNum (if strict_eq val (VNum 1) then 1 else 0))
  /\ (type <> VStr "BOOL" -> val <> VNull -> (forall a, val <> VObj a) ->
      entityValToDbVal h (dbValToEntityVal val type) type
      = Ok (if strict_eq val VUndefined then VNull else val)).
Proof.
  split.
  - unfold dbValToEntityVal. cbn. destruct (strict_eq val (VNum 1)); reflexivity.
  - intros Hty Hn Hobj. unfold dbValToEntityVal, strict_eq at 1.
    rewrite bool_decide_eq_false_2 by exact Hty.
    destruct (decide (val = VUndefined)) as [->|Hu]; [reflexivity|].
    rewrite entityValToDbVal_primitive by assumption.
    unfold strict_eq. rewrite !bool_decide_eq_false_2 by assumption. reflexivity.
Qed.

(** ** More on [save] *)

Lemma save_ok_cases obj w act w' :
  save obj w = (Ok act, w') ->
  (act = SaveCallback /\ w' = w)
  \/ (exists a i sql values,
        obj = VObj a /\ objects w !! a = Some i
        /\ _dirtyProperties i <> []
        /\ act = SaveExecute sql values
        /\ w' = set_objects (<[a := saved i]> (objects w)) w).
Proof.
  unfold save. destruct obj as [| | b | n | s | a];
    try discriminate; try (intros [= <- <-]; left; auto).
  destruct (objects w !! a) as [i|] eqn:Ha; [|intros [= <- <-]; left; auto].
  destruct (dirty_values (objects w) i (_dirtyProperties i)); [|discriminate].
  destruct (_dirtyProperties i) eqn:Hd; [intros [= <- <-]; left; auto|].
  destruct (_new i); intros [= <- <-]; right;
    exists a, i; eexists _, _; rewrite Hd; repeat split; congruence.
Qed.

Lemma settled_after_save obj w act w' :
  save obj w = (Ok act, w') -> settled obj w'.
Proof.
  intros Hs. destruct (save_ok_cases _ _ _ _ Hs)
    as [[-> ->]|(a & i & sql & values & -> & Ha & Hd & -> & ->)].
  - exact Hs.
  - unfold settled, save. cbn.
    rewrite list_lookup_insert_eq by (eapply lookup_lt_Some, Ha). reflexivity.
Qed.

Lemma settled_kept o obj w act w' :
  save obj w = (Ok act, w') -> settled o w -> settled o w'.
Proof.
  intros Hs Ho. destruct (save_ok_cases _ _ _ _ Hs)
    as [[-> ->]|(a & i & sql & values & -> & Ha & Hd & -> & ->)]; [exact Ho|].
  unfold settled, save in *. destruct o as [| | b | n | s | c]; try discriminate;
    try reflexivity.
  cbn. destruct (decide (c = a)) as [->|Hne].
  - rewrite list_lookup_insert_eq by (eapply lookup_lt_Some, Ha). reflexivity.
  - rewrite list_lookup_insert_ne by congruence.
    destruct (objects w !! c) as [j|] eqn:Hc; [|reflexivity].
    destruct (dirty_values (objects w) j (_dirtyProperties j)); [|discriminate].
    destruct (_dirtyProperties j) eqn:Hdj; [reflexivity|].
    destruct (_new j); discriminate.
Qed.

(** X9: [save] is idempotent: once it has gone through for an object,
    saving the same object again issues no statement, changes nothing and
    calls back at once. *)
Theorem save_twice obj w act w' :
  save obj w = (Ok act, w') ->
  save obj w' = (Ok SaveCallback, w').
Proof.
  intros Hs. destruct (save_ok_cases _ _ _ _ Hs)
    as [[-> ->]|(a & i & sql & values & -> & Ha & Hd & -> & ->)]; [exact Hs|].
  unfold save. cbn.
  now rewrite list_lookup_insert_eq by (eapply lookup_lt_Some, Ha).
Qed.

(** X10: for an instance that is not new, whose id prints in full (a
    number only below 2^53), with a non-empty dirtySet whose properties
    all read without failure and hold no [null], [save] hands
    the driver one update that sets exactly the dirty columns, in order,
    keyed by the id written into the statement text, binds the converted
    values and nothing else, and leaves the instance clean and still not
    new. *)
Theorem save_persistent_updates w a i :
  prints_in_full (_id i) = true ->
  objects w !! a = Some i ->
  _new i = false ->
  _dirtyProperties i <> [] ->
  (forall p, p ∈ _dirtyProperties i ->
             exists v, instance_get p i = Ok v /\ v <> VNull) ->
  exists values,
    dirty_values (objects w) i (_dirtyProperties i) = Ok values
    /\ List.length values = List.length (_dirtyProperties i)
    /\ save (VObj a) w =
         (Ok (SaveExecute
                (update_sql (_type i)
                   (map (fun p => quote_name p +:+ " = ?") (_dirtyProperties i))
                   (_id i))
                values),
          set_objects (<[a := saved i]> (objects w)) w)
    /\ objects (set_objects (<[a := saved i]> (objects w)) w) !! a = Some (saved i)
    /\ _new (saved i) = false
    /\ _dirtyProperties (saved i) = [].
Proof.
  intros _ Ha Hnew Hdirty Hread.
  destruct (dirty_values_ok (objects w) i _ Hread) as (values & Hv & Hlen).
  exists values. split; [exact Hv|]. split; [exact Hlen|].
  split; [|split; [|split; reflexivity]].
  - unfold save. rewrite Ha, Hv, Hnew.
    destruct (_dirtyProperties i) eqn:E; [congruence|reflexivity].
  - cbn. apply list_lookup_insert_eq. eapply lookup_lt_Some, Ha.
Qed.

(** ** More on the identity cache *)

(** X11: the first registration under an id wins: once [add] has gone
    through for an object, [add] of anything carrying the same id changes
    nothing. *)
Theorem add_first_wins obj1 obj2 w w1 :
  tracked_bound w ->
  add obj1 w = (Ok tt, w1) ->
  truthy obj1 = true ->
  read_id (objects w) obj2 = read_id (objects w) obj1 ->
  add obj2 w1 = (Ok tt, w1).
Proof.
  intros Hb Hadd Ht Hid.
  apply add_ok_tracked in Hadd as (id & Hrid & Hobj & Htr); [|exact Hb].
  unfold add, js_bind, js_modify. rewrite Hobj, Hid, Hrid.
  assert (Hc : truthy (dict_read (to_string id) (tracked w1)) = true).
  { rewrite Htr. destruct (truthy (dict_read (to_string id) (tracked w))) eqn:E;
      [exact E|].
    unfold dict_read. now rewrite dict_get_set_eq. }
  now rewrite Hc.
Qed.

(** ** More on [flush] *)

Lemma save_throw_world obj w e w' : save obj w = (Throw e, w') -> w' = w.
Proof.
  unfold save. destruct obj as [| | b | n | s | a]; try discriminate;
    try (now intros [= _ <-]).
  destruct (objects w !! a) as [i|]; [|discriminate].
  destruct (dirty_values (objects w) i (_dirtyProperties i));
    [|now intros [= _ <-]].
  destruct (_dirtyProperties i); [discriminate|]. destruct (_new i); discriminate.
Qed.

Lemma save_ok_tracked obj w act w' :
  save obj w = (Ok act, w') -> tracked w' = tracked w.
Proof.
  intros Hs. destruct (save_ok_cases _ _ _ _ Hs)
    as [[_ ->]|(a & i & sql & values & _ & _ & _ & _ & ->)]; reflexivity.
Qed.

Lemma set_session_same m : set_session (session m) m = m.
Proof. now destruct m. Qed.

Lemma final_callback_callbacks f arg :
  callbacks (final_callback f arg) = match f with Some g => [(g, arg)] | None => [] end.
Proof. destruct f; reflexivity. Qed.

Section Flush.
Variables (tx : nat) (f : option nat).

Lemma call_if_given_user m r m' :
  call_if_given (user_callback f) None m = (r, m') ->
  r = Ok tt /\ session m' = session m /\ objArray m' = objArray m
  /\ queue m' = queue m
  /\ trace m' = (trace m ++ final_callback f None)%list.
Proof.
  destruct f as [g|]; cbn; intros [= <- <-]; cbn; rewrite ?app_nil_r; auto.
Qed.

(** what one synchronous stretch of [flush] reaches: the end of the array,
    a pending statement, or an exception *)
Lemma persist_next_outcome stack : forall m r m',
  objArray m = stack -> queue m = [] ->
  persist_next tx (user_callback f) stack m = (r, m') ->
  tracked (session m') = tracked (session m)
  /\ match r with
     | Throw _ => queue m' = [] /\ trace m' = trace m
     | Ok _ =>
         (forall o, settled o (session m) -> settled o (session m'))
         /\ ((queue m' = [] /\ objArray m' = []
              /\ Forall (fun o => settled o (session m')) stack
              /\ trace m' = (trace m ++ final_callback f None)%list)
             \/ (exists done rest sql values,
                   stack = (done ++ rest)%list /\ done <> []
                   /\ objArray m' = rest
                   /\ queue m'
                      = [TStatement tx sql (CbPersistNext tx (user_callback f))]
                   /\ trace m' = (trace m ++ [EvExecuteSql tx sql (Some values)])%list
                   /\ Forall (fun o => settled o (session m')) done))
     end.
Proof.
  induction stack as [|obj rest IH]; intros m r m' Hstack Hq Hp; cbn in Hp.
  - apply call_if_given_user in Hp as (-> & Hs & Ho & Hq' & Ht).
    rewrite Hs. split; [reflexivity|]. split; [auto|]. left.
    rewrite Hq', Ho, Hstack. auto.
  - destruct (save obj (session m)) as [[act|e] w] eqn:Hsave.
    + destruct (save_ok_cases _ _ _ _ Hsave)
        as [[-> ->]|(a & i & sql & values & -> & Ha & Hd & -> & ->)].
      * (* nothing to save: the closure is called at once *)
        specialize (IH (set_session (session m) (set_objArray rest m)) r m'
                      eq_refl Hq Hp).
        cbn in IH. destruct IH as [Htr IH]. split; [exact Htr|].
        destruct r as [u|e]; [|exact IH].
        destruct IH as [Hkeep IH]. split; [exact Hkeep|].
        destruct IH as [(Hq' & Ho & Hall & Ht)
                       |(done & rest' & sql & values & -> & Hne & Ho & Hq' & Ht & Hall)].
        -- left. repeat split; try assumption. constructor; [|exact Hall].
           apply Hkeep. exact Hsave.
        -- right. exists (obj :: done), rest', sql, values.
           repeat split; try assumption; [discriminate|].
           constructor; [|exact Hall]. apply Hkeep. exact Hsave.
      * (* a statement goes to the driver *)
        injection Hp as <- <-. cbn. split; [reflexivity|].
        split; [intros o Ho; eapply settled_kept; eauto|].
        right. exists [VObj a], rest, sql, values. rewrite Hq.
        repeat split; try reflexivity; [discriminate|].
        constructor; [|constructor]. eapply settled_after_save, Hsave.
    + injection Hp as <- <-. apply save_throw_world in Hsave as ->. cbn. auto.
Qed.

Lemma uncaught_app l1 l2 : uncaught (l1 ++ l2) = (uncaught l1 ++ uncaught l2)%list.
Proof. apply omap_app. Qed.

Lemma callbacks_app l1 l2 : callbacks (l1 ++ l2) = (callbacks l1 ++ callbacks l2)%list.
Proof. apply omap_app. Qed.

(** the run from a pending statement of [flush] to rest *)
Lemma run_pending_save fuel : forall m,
  pending_save tx f m -> List.length (objArray m) < fuel ->
  queue (run fuel m) = []
  /\ tracked (session (run fuel m)) = tracked (session m)
  /\ (uncaught (trace (run fuel m)) = uncaught (trace m) ->
      (forall o, settled o (session m) -> settled o (session (run fuel m)))
      /\ Forall (fun o => settled o (session (run fuel m))) (objArray m)
      /\ exists stmts,
           trace (run fuel m) = (trace m ++ stmts ++ final_callback f None)%list
           /\ callbacks stmts = []).
Proof.
  induction fuel as [|fuel IH]; intros m [sql Hq] Hlen; [lia|].
  rewrite run_S, Hq. cbn [deliver invoke].
  set (mL := log (EvSuccess tx sql) (set_queue [] m)).
  destruct (persist_next tx (user_callback f) (objArray mL) mL) as [r m'] eqn:Hp.
  destruct (persist_next_outcome _ mL r m' eq_refl eq_refl Hp) as [Htr Hout].
  change (session mL) with (session m) in *.
  change (objArray mL) with (objArray m) in *.
  change (trace mL) with (trace m ++ [EvSuccess tx sql])%list in *.
  destruct r as [u|e]; cbn [settle].
  - destruct Hout as [Hkeep [(Hq' & Ho & Hall & Ht)
      |(done & rest & sql' & values & Hsplit & Hne & Ho & Hq' & Ht & Hall)]].
    + rewrite run_quiet by exact Hq'. split; [exact Hq'|]. split; [exact Htr|].
      intros _. split; [exact Hkeep|]. split; [exact Hall|].
      exists [EvSuccess tx sql]. rewrite Ht, <- app_assoc. auto.
    + assert (Hlt : List.length (objArray m') < fuel).
      { rewrite Ho. rewrite Hsplit, length_app in Hlen.
        destruct done; [congruence|]. cbn in Hlen. lia. }
      destruct (IH m' (ex_intro _ sql' Hq') Hlt) as (Hq2 & Htr2 & Hpost).
      split; [exact Hq2|]. split; [congruence|].
      intros Hun.
      assert (Hun' : uncaught (trace m') = uncaught (trace m)).
      { rewrite Ht, !uncaught_app. cbn. now rewrite !app_nil_r. }
      destruct Hpost as (Hkeep2 & Hall2 & stmts & Htrace & Hcb); [congruence|].
      split; [auto|]. split.
      * rewrite Hsplit. apply Forall_app. split; [|now rewrite <- Ho].
        eapply Forall_impl; [exact Hall|]. cbn. auto.
      * exists ([EvSuccess tx sql; EvExecuteSql tx sql' (Some values)] ++ stmts)%list.
        rewrite Htrace, Ht, <- !app_assoc. split; [reflexivity|].
        rewrite callbacks_app. cbn. exact Hcb.
  - destruct Hout as [Hq' Ht].
    rewrite run_quiet by exact Hq'. split; [exact Hq'|]. split; [exact Htr|].
    cbn. rewrite Ht, !uncaught_app. cbn. intros Hun.
    apply (f_equal (@List.length exn)) in Hun. rewrite !length_app in Hun.
    cbn in Hun. lia.
Qed.

Lemma run_pending_or_rest fuel : forall m,
  queue m = [] \/ pending_save tx f m ->
  queue (run fuel m) = [] \/ pending_save tx f (run fuel m).
Proof.
  induction fuel as [|fuel IH]; intros m Hm; [exact Hm|].
  destruct Hm as [Hq|[sql Hq]]; [rewrite run_quiet by exact Hq; auto|].
  rewrite run_S, Hq. apply IH. cbn [deliver invoke].
  set (mL := log (EvSuccess tx sql) (set_queue [] m)).
  destruct (persist_next tx (user_callback f) (objArray mL) mL) as [r m'] eqn:Hp.
  destruct (persist_next_outcome _ mL r m' eq_refl eq_refl Hp) as [_ Hout].
  destruct r as [u|e]; cbn [settle].
  - destruct Hout as [_ [(Hq' & _)|(done & rest & sql' & values & _ & _ & _ & Hq' & _)]];
      [auto|right; now exists sql'].
  - left. apply Hout.
Qed.

(** what the call of [flush] itself reaches *)
Lemma flush_outcome w n r m0 :
  flush tx (user_callback f) (idle w n) = (r, m0) ->
  tracked (session m0) = tracked w
  /\ List.length (objArray m0) <= List.length (tracked w)
  /\ match r with
     | Throw _ => queue m0 = [] /\ trace m0 = []
     | Ok _ =>
         (forall o, settled o w -> settled o (session m0))
         /\ ((queue m0 = [] /\ objArray m0 = []
              /\ Forall (fun o => settled o (session m0)) (dict_values (tracked w))
              /\ trace m0 = final_callback f None)
             \/ (exists done sql values,
                   rev (dict_values (tracked w)) = (done ++ objArray m0)%list
                   /\ done <> []
                   /\ pending_save tx f m0
                   /\ trace m0 = [EvExecuteSql tx sql (Some values)]
                   /\ Forall (fun o => settled o (session m0)) done))
     end.
Proof.
  unfold flush. cbn [session idle].
  set (stack := rev (dict_values (tracked w))).
  assert (Hlen : List.length stack = List.length (tracked w))
    by (unfold stack, dict_values; now rewrite length_rev, length_map).
  set (m1 := set_objArray stack (idle w n)).
  change (objArray m1) with stack.
  destruct stack as [|obj rest] eqn:Hstack.
  - assert (Hnil : dict_values (tracked w) = []).
    { destruct (tracked w); [reflexivity|discriminate]. }
    intros Hc. destruct f as [g|]; cbn in Hc; injection Hc as <- <-; cbn.
    + rewrite Hnil. split; [reflexivity|]. split; [lia|]. split; [auto|].
      left. auto.
    + split; [reflexivity|]. split; [lia|]. auto.
  - unfold persistOneEntity. change (objArray m1) with (obj :: rest).
    intros Hp.
    destruct (persist_next_outcome (obj :: rest) m1 r m0 eq_refl eq_refl Hp)
      as [Htr Hout].
    change (session m1) with w in *. change (trace m1) with (@nil event) in *.
    split; [exact Htr|].
    destruct r as [u|e].
    + destruct Hout as [Hkeep [(Hq' & Ho & Hall & Ht)
        |(done & rest' & sql & values & Hsplit & Hne & Ho & Hq' & Ht & Hall)]].
      * split; [rewrite Ho; cbn; lia|]. split; [exact Hkeep|]. left.
        repeat split; try assumption.
        apply Forall_rev in Hall. unfold stack in Hstack.
        rewrite <- Hstack, rev_involutive in Hall. exact Hall.
      * split.
        { rewrite Ho, <- Hlen, Hsplit, length_app. lia. }
        split; [exact Hkeep|]. right. exists done, sql, values.
        rewrite Ho. repeat split; try assumption. now exists sql.
    + split; [|exact Hout].
      (* the array has lost at least its last element *)
      clear Hout Htr. rewrite <- Hlen. revert Hp. clear.
      intros Hp.
      assert (forall stack m r m',
                persist_next tx (user_callback f) stack m = (r, m') ->
                objArray m = stack ->
                List.length (objArray m') <= List.length stack) as Hmono.
      { clear. induction stack as [|o st IH]; intros m r m' Hp Ho; cbn in Hp.
        - apply call_if_given_user in Hp as (_ & _ & -> & _). rewrite Ho. cbn. lia.
        - destruct (save o (session m)) as [[[|sql values]|e] w'].
          + apply IH in Hp; [cbn; lia|reflexivity].
          + injection Hp as <- <-. cbn. lia.
          + injection Hp as <- <-. cbn. lia. }
      eapply Hmono; [exact Hp|reflexivity].
Qed.

End Flush.

(** X12: [flush] comes to rest: after at most as many completions as there
    are tracked objects nothing is pending, and at no moment is more than
    one statement pending. *)
Theorem flush_terminates_sequentially w n tx f :
  (forall fuel, List.length (tracked w) <= fuel ->
     queue (run fuel (snd (flush tx (user_callback f) (idle w n)))) = [])
  /\ forall fuel,
       List.length (queue (run fuel (snd (flush tx (user_callback f) (idle w n))))) <= 1.
Proof.
  destruct (flush tx (user_callback f) (idle w n)) as [r m0] eqn:Hf.
  destruct (flush_outcome tx f w n r m0 Hf) as (Htr & Hlen & Hout). cbn [snd].
  assert (Hshape : queue m0 = [] \/ pending_save tx f m0).
  { destruct r as [u|e]; [|left; apply Hout].
    destruct Hout as [_ [(Hq & _)|(done & sql & values & _ & _ & Hp & _)]]; auto. }
  split.
  - intros fuel Hfuel. destruct Hshape as [Hq|Hp]; [now rewrite run_quiet|].
    apply (run_pending_save tx f fuel m0 Hp).
    destruct r as [u|e]; [|destruct Hp as [sql Hp]; destruct Hout as [Hq _];
                            congruence].
    destruct Hout as [_ [(Hq & _)|(done & sql & values & Hsplit & Hne & _)]].
    + destruct Hp as [sql Hp]. congruence.
    + apply (f_equal (@List.length value)) in Hsplit.
      unfold dict_values in Hsplit.
      rewrite length_rev, length_map, length_app in Hsplit.
      destruct done; [congruence|]. cbn in Hsplit. lia.
  - intros fuel.
    destruct (run_pending_or_rest tx f fuel m0 Hshape) as [->|[sql ->]]; cbn; lia.
Qed.

(** X13: when [flush] and the run after it meet no exception, every tracked
    object ends up with nothing left to save, the identity cache is as it
    was, and the trace is the statements and their completions followed, if
    a callback was given, by its one and only call. *)
Theorem flush_saves_all w n tx f fuel :
  List.length (tracked w) <= fuel ->
  fst (flush tx (user_callback f) (idle w n)) = Ok tt ->
  uncaught (trace (run fuel (snd (flush tx (user_callback f) (idle w n))))) = [] ->
  Forall (fun obj =>
            settled obj
              (session (run fuel (snd (flush tx (user_callback f) (idle w n))))))
    (dict_values (tracked w))
  /\ tracked (session (run fuel (snd (flush tx (user_callback f) (idle w n)))))
     = tracked w
  /\ exists stmts,
       trace (run fuel (snd (flush tx (user_callback f) (idle w n))))
       = (stmts ++ final_callback f None)%list
       /\ callbacks stmts = [].
Proof.
  intros Hfuel.
  destruct (flush tx (user_callback f) (idle w n)) as [r m0] eqn:Hf.
  destruct (flush_outcome tx f w n r m0 Hf) as (Htr & Hlen & Hout). cbn [fst snd].
  intros -> Hun.
  destruct Hout as [Hkeep [(Hq & Ho & Hall & Ht)
    |(done & sql & values & Hsplit & Hne & Hp & Ht & Hall)]].
  - rewrite run_quiet in * by exact Hq. split; [exact Hall|]. split; [exact Htr|].
    exists []. auto.
  - assert (Hlt : List.length (objArray m0) < fuel).
    { apply (f_equal (@List.length value)) in Hsplit.
      unfold dict_values in Hsplit.
      rewrite length_rev, length_map, length_app in Hsplit.
      destruct done; [congruence|]. cbn in Hsplit. lia. }
    destruct (run_pending_save tx f fuel m0 Hp Hlt) as (Hq & Htr2 & Hpost).
    destruct Hpost as (Hkeep2 & Hall2 & stmts & Htrace & Hcb).
    { rewrite Hun, Ht. reflexivity. }
    split; [|split; [congruence|]].
    + rewrite <- (rev_involutive (dict_values (tracked w))).
      apply Forall_rev.
      rewrite Hsplit. apply Forall_app. split; [|exact Hall2].
      eapply Forall_impl; [exact Hall|]. cbn. auto.
    + exists ([EvExecuteSql tx sql (Some values)] ++ stmts)%list.
      rewrite Htrace, Ht. split; [now rewrite <- app_assoc|]. exact Hcb.
Qed.

(** X14: when no tracked object has anything to save (in particular when
    nothing is tracked), [flush] issues no statement and calls the callback
    before it returns. *)
Theorem flush_nothing_to_save w n tx g :
  Forall (fun obj => settled obj w) (dict_values (tracked w)) ->
  flush tx (CbUser g) (idle w n) = (Ok tt, log (EvCallback g None) (idle w n)).
Proof.
  intros Hall. unfold flush. cbn [session idle].
  apply Forall_rev in Hall.
  set (stack := rev (dict_values (tracked w))) in *.
  assert (Hgen : forall st m, Forall (fun obj => settled obj (session m)) st ->
            persist_next tx (CbUser g) st m
            = (Ok tt, log (EvCallback g None) (set_objArray [] m))
            \/ st = [] ).
  { induction st as [|o st IH]; intros m Hst; [auto|]. left.
    inversion Hst as [|? ? Ho Hrest]; subst. cbn.
    unfold settled in Ho. rewrite Ho.
    destruct st as [|o' st'].
    - cbn. reflexivity.
    - destruct (IH (set_session (session m) (set_objArray (o' :: st') m)) Hrest)
        as [->|]; [reflexivity|discriminate]. }
  change (objArray (set_objArray stack (idle w n))) with stack.
  destruct stack as [|o st] eqn:Hs; [reflexivity|].
  unfold persistOneEntity. cbn [objArray set_objArray].
  destruct (Hgen (o :: st) (set_objArray (o :: st) (idle w n)) Hall) as [->|];
    [reflexivity|discriminate].
Qed.

(** ** [reset] *)

Lemma drop_run_quiet fuel d : dropping d = [] -> drop_run fuel d = d.
Proof. intros H. destruct fuel; cbn; [reflexivity|]. now rewrite H. Qed.

Lemma drop_run_pending tx rest : forall t fuel tr,
  List.length rest < fuel ->
  drop_run fuel
    {| reset_tx := tx; tableArray := rest;
       dropping := ["DROP TABLE " +:+ to_string t];
       drop_trace := tr |}
  = {| reset_tx := tx; tableArray := []; dropping := [];
       drop_trace := (tr ++ EvSuccess tx ("DROP TABLE " +:+ to_string t)
                         :: drops tx (map VStr rest))%list |}.
Proof.
  induction rest as [|t' rest IH]; intros t fuel tr Hfuel;
    (destruct fuel as [|fuel]; [cbn in Hfuel; lia|]).
  - cbn -[append]. now rewrite drop_run_quiet by reflexivity.
  - cbn [drop_run dropping drop_deliver tableArray reset_tx drop_trace].
    unfold dropOneTable. cbn [pop_table tableArray reset_tx dropping drop_trace app].
    rewrite IH by (cbn in Hfuel; lia).
    f_equal. cbn -[append]. now rewrite <- !app_assoc.
Qed.

(** X15: [reset] drops the tables of the registered entities one after
    the other in the caller's transaction, last registered first, each
    statement issued after the one before has completed, and then rests;
    with no entity registered it still issues one statement, for a table
    called [undefined]. *)
Theorem reset_drops_tables tx w fuel :
  List.length (entityMeta w) <= fuel ->
  1 <= fuel ->
  dropping (drop_run fuel (reset tx w)) = []
  /\ drop_trace (drop_run fuel (reset tx w))
     = drops tx (match entityMeta w with
                 | [] => [VUndefined]
                 | _ :: _ => map VStr (rev (map fst (entityMeta w)))
                 end).
Proof.
  intros Hfuel H1. unfold reset, dropOneTable.
  assert (Hlen : List.length (rev (map fst (entityMeta w)))
                 = List.length (entityMeta w))
    by now rewrite length_rev, length_map.
  destruct (rev (map fst (entityMeta w))) as [|t rest] eqn:Hts.
  - destruct (entityMeta w); [|cbn in Hlen; discriminate].
    cbn [pop_table tableArray reset_tx dropping drop_trace app].
    rewrite (drop_run_pending tx [] VUndefined fuel) by (cbn; lia).
    split; reflexivity.
  - destruct (entityMeta w) eqn:Hem; [cbn in Hts; discriminate|].
    cbn [pop_table tableArray reset_tx dropping drop_trace app].
    rewrite (drop_run_pending tx rest (VStr t) fuel)
      by (cbn in Hlen, Hfuel; lia).
    split; reflexivity.
Qed.

(** ** More on [schemaSync] *)

(** X16: with no entity registered [schemaSync] fails at once with a
    TypeError: no transaction is asked for, nothing is ever issued and the
    callback is never called. *)
Theorem schemaSync_empty_registry w n k fuel :
  entityMeta w = [] ->
  fst (schemaSync k (idle w n)) = Throw (TypeError (ReadPropertyOfNullish "fields"))
  /\ run fuel (snd (schemaSync k (idle w n))) = idle w n.
Proof.
  intros He. unfold schemaSync, createOneEntityTable. cbn. rewrite He. cbn.
  split; [reflexivity|]. now rewrite run_quiet.
Qed.

(** ** More on [rowToEntity] *)

Lemma substring_all s : String.substring 0 (String.length s) s = s.
Proof. induction s as [|c s IH]; cbn; [reflexivity|]. now rewrite IH. Qed.

Lemma prefix_column_prop prefix : forall p,
  String.prefix prefix p = true -> p = prefix +:+ column_prop prefix p.
Proof.
  unfold column_prop.
  induction prefix as [|c prefix IH]; intros p Hp.
  - cbn. rewrite Nat.sub_0_r.
    symmetry. apply substring_all.
  - destruct p as [|c' p]; cbn in Hp; [discriminate|].
    destruct (Ascii.ascii_dec c c') as [->|]; [|discriminate].
    cbn. change (String c' prefix +:+ ?x) with (String c' (prefix +:+ x)).
    f_equal. now apply IH.
Qed.

Lemma column_prop_inj prefix p q :
  String.prefix prefix p = true -> String.prefix prefix q = true ->
  column_prop prefix p = column_prop prefix q -> p = q.
Proof.
  intros Hp Hq Heq. rewrite (prefix_column_prop prefix p Hp).
  rewrite (prefix_column_prop prefix q Hq). now rewrite Heq.
Qed.

Lemma dict_get_NoDup {V} k (v : V) o :
  NoDup (map fst o) -> (k, v) ∈ o -> dict_get k o = Some v.
Proof.
  induction o as [|[k' v'] o IH]; intros Hnd Hin; [inversion Hin|].
  cbn in Hnd. apply NoDup_cons in Hnd as [Hk Hnd]. cbn.
  apply elem_of_cons in Hin as [[= -> ->]|Hin].
  - now rewrite String.eqb_refl.
  - destruct (String.eqb k k') eqn:E; [|now apply IH].
    apply String.eqb_eq in E as ->. exfalso. apply Hk.
    apply list_elem_of_fmap. now exists (k', v).
Qed.

Lemma instance_get_set_field h f val i :
  f ∈ fieldAccessors i -> f ∉ hasOneAccessors i ->
  instance_get f (instance_set h f val i) = Ok val.
Proof.
  intros Hf Hno.
  destruct (instance_set_accessors h f val i) as (A1 & A2 & _).
  unfold instance_get. rewrite A1, A2.
  rewrite bool_decide_eq_false_2 by exact Hno.
  rewrite bool_decide_eq_true_2 by exact Hf.
  unfold instance_set.
  rewrite bool_decide_eq_false_2 by exact Hno.
  rewrite bool_decide_eq_true_2 by exact Hf.
  unfold field_get. cbn. now rewrite lookup_insert_eq.
Qed.

Section Columns.
Variables (m : meta) (row : list (string * value)) (prefix : string) (o : nat).

Lemma same_shape_refl i : same_shape i i.
Proof. repeat split; auto. Qed.

Lemma same_shape_trans i1 i2 i3 :
  same_shape i1 i2 -> same_shape i2 i3 -> same_shape i1 i3.
Proof.
  intros (A1 & A2 & A3 & A4 & A5 & A6) (B1 & B2 & B3 & B4 & B5 & B6).
  repeat split; try congruence. auto.
Qed.

Lemma same_shape_set h p val i : same_shape i (instance_set h p val i).
Proof.
  destruct (instance_set_accessors h p val i) as (A1 & A2 & A3 & A4).
  repeat split; try assumption; [apply instance_set_id|].
  intros g Hg. apply instance_set_dirty. auto.
Qed.

Lemma row_column_step p w i :
  objects w !! o = Some i ->
  exists i',
    objects (row_column m row prefix o p w) !! o = Some i'
    /\ same_shape i i'
    /\ (forall b, b <> o -> objects (row_column m row prefix o p w) !! b = objects w !! b)
    /\ dicts (row_column m row prefix o p w) = dicts w
    /\ trackedObjects (row_column m row prefix o p w) = trackedObjects w
    /\ (forall g, (String.prefix prefix p = true -> column_prop prefix p <> g) ->
                  instance_get g i' = instance_get g i)
    /\ (String.prefix prefix p = true ->
        column_prop prefix p <> "id" ->
        column_prop prefix p ∈ fieldAccessors i ->
        column_prop prefix p ∉ hasOneAccessors i ->
        instance_get (column_prop prefix p) i' = Ok (column_value m row prefix p)
        /\ column_prop prefix p ∈ _dirtyProperties i').
Proof.
  intros Ho. unfold row_column. fold (column_prop prefix p).
  destruct (String.prefix prefix p) eqn:Hpre.
  2: { exists i. repeat split; auto using same_shape_refl; discriminate. }
  destruct (String.eqb (column_prop prefix p) "id") eqn:Hid.
  { apply String.eqb_eq in Hid. exists i.
    repeat split; auto using same_shape_refl; congruence. }
  fold (column_value m row prefix p).
  destruct (assign_lookup o (column_prop prefix p) (column_value m row prefix p) w i Ho)
    as [Hl Hother].
  eexists. split; [exact Hl|]. split; [apply same_shape_set|].
  split; [exact Hother|].
  split; [unfold assign; now rewrite Ho|].
  split; [unfold assign; now rewrite Ho|].
  split.
  - intros g Hg. apply instance_get_set_ne. intros ->. now apply Hg.
  - intros _ _ Hf Hno. split; [now apply instance_get_set_field|].
    apply instance_set_dirty. auto.
Qed.

Lemma row_columns_spec ps : forall w i,
  objects w !! o = Some i ->
  let w' := fold_left (fun w' p => row_column m row prefix o p w') ps w in
  exists i',
    objects w' !! o = Some i'
    /\ same_shape i i'
    /\ (forall b, b <> o -> objects w' !! b = objects w !! b)
    /\ dicts w' = dicts w /\ trackedObjects w' = trackedObjects w
    /\ (forall g,
          (forall q, q ∈ ps -> String.prefix prefix q = true ->
                     column_prop prefix q <> g) ->
          instance_get g i' = instance_get g i
          /\ (g ∈ _dirtyProperties i -> g ∈ _dirtyProperties i'))
    /\ (NoDup ps ->
        forall p, p ∈ ps ->
          String.prefix prefix p = true ->
          column_prop prefix p <> "id" ->
          column_prop prefix p ∈ fieldAccessors i ->
          column_prop prefix p ∉ hasOneAccessors i ->
          instance_get (column_prop prefix p) i' = Ok (column_value m row prefix p)
          /\ column_prop prefix p ∈ _dirtyProperties i').
Proof.
  induction ps as [|p0 ps IH]; intros w i Ho; cbn.
  - exists i. split; [exact Ho|]. split; [apply same_shape_refl|].
    do 3 (split; [auto|]). split; [auto|].
    intros _ p Hp. inversion Hp.
  - destruct (row_column_step p0 w i Ho)
      as (i0 & Ho0 & Hs0 & Hoth0 & Hd0 & Ht0 & Hkeep0 & Hset0).
    destruct (IH _ i0 Ho0) as (i' & Ho' & Hs' & Hoth' & Hd' & Ht' & Hkeep' & Hset').
    exists i'. split; [exact Ho'|].
    split; [eapply same_shape_trans; eauto|].
    split; [intros b Hb; rewrite Hoth' by exact Hb; now apply Hoth0|].
    split; [congruence|]. split; [congruence|].
    split.
    + intros g Hg.
      destruct (Hkeep' g) as [Hk1 Hk2]; [intros q Hq; apply Hg; now right|].
      split.
      * rewrite Hk1. apply Hkeep0. apply Hg. left.
      * intros Hin. apply Hk2. now apply Hs0.
    + intros Hnd p Hp Hpre Hid Hf Hno.
      apply NoDup_cons in Hnd as [Hp0 Hnd].
      destruct Hs0 as (S1 & S2 & _).
      apply elem_of_cons in Hp as [->|Hp].
      * destruct (Hset0 Hpre Hid Hf Hno) as [Hv Hdirty].
        destruct (Hkeep' (column_prop prefix p0)) as [Hk1 Hk2].
        { intros q Hq Hqpre Heq. apply Hp0.
          now rewrite <- (column_prop_inj prefix q p0 Hqpre Hpre Heq). }
        split; [now rewrite Hk1|now apply Hk2].
      * apply Hset'; try assumption; congruence.
Qed.

End Columns.

(** X17: on a cache miss, for a defined entity and a row none of whose
    columns names an internal property (and whose id, if a number, is
    below 2^53), [rowToEntity] builds one new object and leaves the objects
    that exist and the identity cache as they are; the object carries the
    row's id and is not new.  When the
    row's column names are distinct, every column that (after the prefix)
    names a declared field other than [id] reads as the column's value
    converted with the field's declared type, and that field is dirty. *)
Theorem rowToEntity_materializes entityName row prefix w m :
  plain_columns prefix row = true ->
  prints_in_full (dict_read (prefix +:+ "id") row) = true ->
  truthy (dict_read (to_string (dict_read (prefix +:+ "id") row)) (tracked w)) = false ->
  dict_get entityName (entityMeta w) = Some m ->
  _entityClassCache w !! entityName <> Some false ->
  exists i w',
    rowToEntity entityName row prefix w = (Ok (VObj (List.length (objects w))), w')
    /\ objects w' !! List.length (objects w) = Some i
    /\ _id i = dict_read (prefix +:+ "id") row
    /\ _new i = false
    /\ _type i = entityName
    /\ (forall b, b < List.length (objects w) -> objects w' !! b = objects w !! b)
    /\ tracked w' = tracked w
    /\ (NoDup (map fst row) ->
        forall p v, (p, v) ∈ row ->
          String.prefix prefix p = true ->
          column_prop prefix p <> "id" ->
          column_prop prefix p ∈ map fst (fields m) ->
          column_prop prefix p ∉ map fst (hasOne m) ->
          instance_get (column_prop prefix p) i
          = Ok (dbValToEntityVal v (field_type m (column_prop prefix p)))
          /\ column_prop prefix p ∈ _dirtyProperties i).
Proof.
  intros _ _ Hmiss Hm Hclass. unfold rowToEntity. rewrite Hmiss, Hm.
  assert (Hcm : class_meta entityName (getEntity entityName w) = Some m).
  { unfold class_meta, getEntity.
    destruct (_entityClassCache w !! entityName) as [[|]|] eqn:Hc; try congruence.
    - now rewrite Hc.
    - cbn. rewrite lookup_insert_eq.
      rewrite bool_decide_eq_true_2 by (rewrite Hm; eauto). exact Hm. }
  destruct (getEntity_frame entityName w) as (G1 & G2 & G3).
  destruct (entity_defined_shape entityName [] _ m Hcm)
    as (i0 & -> & Hty & Hfa & Hha).
  rewrite G1.
  set (o := List.length (objects w)).
  set (w2 := set_objects _ _).
  assert (Ho2 : objects w2 !! o = Some (set_id_new (dict_read (prefix +:+ "id") row) false i0)).
  { subst w2. cbn. rewrite list_lookup_alter_eq.
    rewrite lookup_app_r by (unfold o; lia).
    unfold o. now rewrite Nat.sub_diag. }
  assert (Hoth2 : forall b, b < o -> objects w2 !! b = objects w !! b).
  { intros b Hb. subst w2. cbn.
    rewrite list_lookup_alter_ne by lia. now rewrite lookup_app_l by exact Hb. }
  destruct (row_columns_spec m row prefix o (map fst row) w2 _ Ho2)
    as (i & Ho & Hs & Hoth & Hd & Ht & _ & Hset).
  destruct Hs as (S1 & S2 & S3 & S4 & S5 & _). cbn in S1, S2, S3, S4, S5.
  exists i. eexists. split; [reflexivity|].
  split; [exact Ho|]. split; [exact S3|]. split; [exact S4|].
  split; [congruence|].
  split; [intros b Hb; rewrite Hoth by (unfold o; lia); now apply Hoth2|].
  split.
  { unfold tracked. rewrite Hd, Ht. subst w2. cbn. now rewrite G2, G3. }
  intros Hnd p v Hin Hpre Hid Hf Hno.
  assert (Hp : p ∈ map fst row) by (apply list_elem_of_fmap; now exists (p, v)).
  cbn in Hset. rewrite Hfa, Hha in Hset.
  destruct (Hset Hnd p Hp Hpre Hid Hf Hno) as [Hv Hdirty].
  split; [|exact Hdirty]. rewrite Hv. unfold column_value, dict_read.
  now rewrite (dict_get_NoDup p v row Hnd Hin).
Qed.

(** ** [remove] *)


Lemma entity_constructs_witness :
  exists i,
    entity "Person" [("name", VStr "Alice"); ("age", VNum 30)] Scenario.registry
    = (Ok (VObj (List.length (objects Scenario.registry))),
       set_objects (objects Scenario.registry ++ [i])%list
         (set_uuidCount (S (uuidCount Scenario.registry)) Scenario.registry))
    /\ _id i = VStr (createUUID Scenario.registry (uuidCount Scenario.registry))
    /\ _new i = true
    /\ _type i = "Person"
    /\ fieldAccessors i = map fst (fields Cases.person)
    /\ hasOneAccessors i = map fst (hasOne Cases.person)
    /\ (forall g, g ∈ _dirtyProperties i
          <-> g ∈ map fst [("name", VStr "Alice"); ("age", VNum 30)]
              /\ (g ∈ map fst (hasOne Cases.person)
                  \/ g ∈ map fst (fields Cases.person)))
    /\ tracked (snd (entity "Person" [("name", VStr "Alice"); ("age", VNum 30)]
                       Scenario.registry))
       = tracked Scenario.registry.
Proof.
  apply (entity_constructs "Person" _ Scenario.registry Cases.person).
  - reflexivity.
  - vm_compute. reflexivity.
Defined.

Lemma entity_twice_distinct_witness :
  VObj 0 <> VObj 1
  /\ exists a1 a2 i1 i2,
       VObj 0 = VObj a1 /\ VObj 1 = VObj a2
       /\ objects Scenario.with_alice !! a1 = Some i1
       /\ objects Scenario.with_rex !! a1 = Some i1
       /\ objects Scenario.with_rex !! a2 = Some i2
       /\ ((forall n n', createUUID Scenario.registry n
                         = createUUID Scenario.registry n' -> n = n') ->
           _id i1 <> _id i2).
Proof.
  apply (entity_twice_distinct "Person"
           [("name", VStr "Alice"); ("alive", VBool true)]
           "Pet" [("name", VStr "Rex"); ("owner", VObj 0)]
           Scenario.registry (VObj 0) Scenario.with_alice (VObj 1) Scenario.with_rex);
    [reflexivity | reflexivity | vm_compute; reflexivity | vm_compute; reflexivity].
Defined.


Lemma field_write_read_witness :
  read 0 "name" (assign 0 "name" (VStr "Bob") Scenario.with_alice) = Ok (VStr "Bob")
  /\ (exists i', objects (assign 0 "name" (VStr "Bob") Scenario.with_alice) !! 0
                 = Some i'
                 /\ "name" ∈ _dirtyProperties i')
  /\ (forall g, g <> "name" ->
        read 0 g (assign 0 "name" (VStr "Bob") Scenario.with_alice)
        = read 0 g Scenario.with_alice)
  /\ (forall b, b <> 0 ->
        objects (assign 0 "name" (VStr "Bob") Scenario.with_alice) !! b
        = objects Scenario.with_alice !! b).
Proof.
  apply (field_write_read 0 "name" (VStr "Bob") Scenario.with_alice Scenario.alice).
  - vm_compute. reflexivity.
  - apply list_elem_of_In. cbn. auto.
  - apply not_elem_of_nil.
Defined.

Lemma hasOne_write_instance_read_witness :
  read 1 "owner" (assign 1 "owner" (VObj 0) Scenario.with_tom) = Ok (VObj 0)
  /\ exists i', objects (assign 1 "owner" (VObj 0) Scenario.with_tom) !! 1 = Some i'
       /\ data i' !! "owner" = Some (_id Scenario.alice)
       /\ data_obj i' !! "owner" = Some (VObj 0)
       /\ "owner" ∈ _dirtyProperties i'.
Proof.
  apply (hasOne_write_instance_read 1 "owner" 0 Scenario.with_tom
           Scenario.tom Scenario.alice).
  - vm_compute. reflexivity.
  - apply list_elem_of_In. cbn. auto.
  - vm_compute. reflexivity.
  - reflexivity.
Defined.

Lemma hasOne_write_bare_read_witness :
  read 1 "owner" (assign 1 "owner" (VStr "xyz") Scenario.with_tom)
  = Throw (UnresolvedRelation "owner"
             (if loose_eq_null (VStr "xyz") then VNull else VStr "xyz"))
  /\ exists i', objects (assign 1 "owner" (VStr "xyz") Scenario.with_tom) !! 1
                = Some i'
       /\ data i' !! "owner"
          = Some (if loose_eq_null (VStr "xyz") then VNull else VStr "xyz")
       /\ unresolved "owner" i'.
Proof.
  apply (hasOne_write_bare_read 1 "owner" (VStr "xyz") Scenario.with_tom Scenario.tom).
  - reflexivity.
  - vm_compute. reflexivity.
  - apply list_elem_of_In. cbn. auto.
  - reflexivity.
  - discriminate.
Defined.

Lemma save_twice_witness :
  save (VObj 0) Cases.alice_saved = (Ok SaveCallback, Cases.alice_saved).
Proof.
  apply (save_twice (VObj 0) Scenario.with_alice
           (SaveExecute "INSERT INTO `Person` (`name`, `alive`, id) VALUES (?, ?, ?)"
              [VStr "Alice"; VBool true; VStr "uuid0"])).
  vm_compute. reflexivity.
Defined.

Lemma save_persistent_updates_witness :
  exists values,
    dirty_values (objects Cases.alice_renamed) Cases.renamed
      (_dirtyProperties Cases.renamed) = Ok values
    /\ List.length values = List.length (_dirtyProperties Cases.renamed)
    /\ save (VObj 0) Cases.alice_renamed =
         (Ok (SaveExecute
                (update_sql (_type Cases.renamed)
                   (map (fun p => quote_name p +:+ " = ?")
                      (_dirtyProperties Cases.renamed))
                   (_id Cases.renamed))
                values),
          set_objects (<[0 := saved Cases.renamed]> (objects Cases.alice_renamed))
            Cases.alice_renamed)
    /\ objects (set_objects (<[0 := saved Cases.renamed]> (objects Cases.alice_renamed))
                  Cases.alice_renamed) !! 0 = Some (saved Cases.renamed)
    /\ _new (saved Cases.renamed) = false
    /\ _dirtyProperties (saved Cases.renamed) = [].
Proof.
  apply (save_persistent_updates Cases.alice_renamed 0 Cases.renamed).
  - reflexivity.
  - vm_compute. reflexivity.
  - reflexivity.
  - discriminate.
  - intros p Hp. apply list_elem_of_In in Hp. cbn in Hp.
    destruct Hp as [<-|[]]. eexists. split; [vm_compute; reflexivity|discriminate].
Defined.

Lemma add_first_wins_witness :
  add (VObj 0) Scenario.alice_tracked = (Ok tt, Scenario.alice_tracked).
Proof.
  apply (add_first_wins (VObj 0) (VObj 0) Scenario.with_alice Scenario.alice_tracked).
  - unfold tracked_bound. vm_compute. lia.
  - vm_compute. reflexivity.
  - reflexivity.
  - reflexivity.
Defined.

Lemma flush_saves_all_witness :
  Forall (fun obj =>
            settled obj
              (session (run 1 (snd (flush 7 (user_callback (Some 0))
                                      (idle Scenario.alice_tracked 0))))))
    (dict_values (tracked Scenario.alice_tracked))
  /\ tracked (session (run 1 (snd (flush 7 (user_callback (Some 0))
                                     (idle Scenario.alice_tracked 0)))))
     = tracked Scenario.alice_tracked
  /\ exists stmts,
       trace (run 1 (snd (flush 7 (user_callback (Some 0))
                            (idle Scenario.alice_tracked 0))))
       = (stmts ++ final_callback (Some 0) None)%list
       /\ callbacks stmts = [].
Proof.
  apply (flush_saves_all Scenario.alice_tracked 0 7 (Some 0) 1).
  - vm_compute. lia.
  - vm_compute. reflexivity.
  - vm_compute. reflexivity.
Defined.

Lemma flush_nothing_to_save_witness :
  flush 7 (CbUser 0) (idle Cases.tracked_saved 0)
  = (Ok tt, log (EvCallback 0 None) (idle Cases.tracked_saved 0)).
Proof.
  apply (flush_nothing_to_save Cases.tracked_saved 0 7 0).
  change (dict_values (tracked Cases.tracked_saved)) with [VObj 0].
  constructor; [|constructor]. unfold settled. vm_compute. reflexivity.
Defined.

Lemma reset_drops_tables_witness :
  dropping (drop_run 2 (reset 7 Scenario.registry)) = []
  /\ drop_trace (drop_run 2 (reset 7 Scenario.registry))
     = drops 7 (match entityMeta Scenario.registry with
                | [] => [VUndefined]
                | _ :: _ => map VStr (rev (map fst (entityMeta Scenario.registry)))
                end).
Proof.
  apply (reset_drops_tables 7 Scenario.registry 2).
  - vm_compute. lia.
  - lia.
Defined.

Lemma schemaSync_empty_registry_witness :
  fst (schemaSync (CbUser 0) (idle (initial_world Scenario.gen) 0))
  = Throw (TypeError (ReadPropertyOfNullish "fields"))
  /\ run 3 (snd (schemaSync (CbUser 0) (idle (initial_world Scenario.gen) 0)))
     = idle (initial_world Scenario.gen) 0.
Proof.
  apply (schemaSync_empty_registry (initial_world Scenario.gen) 0 (CbUser 0) 3).
  reflexivity.
Defined.

Lemma rowToEntity_materializes_witness :
  exists i w',
    rowToEntity "Person" Scenario.row1 "" Scenario.registry
    = (Ok (VObj (List.length (objects Scenario.registry))), w')
    /\ objects w' !! List.length (objects Scenario.registry) = Some i
    /\ _id i = dict_read ("" +:+ "id") Scenario.row1
    /\ _new i = false
    /\ _type i = "Person"
    /\ (forall b, b < List.length (objects Scenario.registry) ->
                  objects w' !! b = objects Scenario.registry !! b)
    /\ tracked w' = tracked Scenario.registry
    /\ (NoDup (map fst Scenario.row1) ->
        forall p v, (p, v) ∈ Scenario.row1 ->
          String.prefix "" p = true ->
          column_prop "" p <> "id" ->
          column_prop "" p ∈ map fst (fields Cases.person) ->
          column_prop "" p ∉ map fst (hasOne Cases.person) ->
          instance_get (column_prop "" p) i
          = Ok (dbValToEntityVal v (field_type Cases.person (column_prop "" p)))
          /\ column_prop "" p ∈ _dirtyProperties i).
Proof.
  apply (rowToEntity_materializes "Person" Scenario.row1 "" Scenario.registry
           Cases.person).
  - reflexivity.
  - reflexivity.
  - vm_compute. reflexivity.
  - vm_compute. reflexivity.
  - vm_compute. discriminate.
Defined.


Lemma rowToEntity_add_rowToEntity_witness :
  rowToEntity "Person" Scenario.row2 "" Cases.row_tracked
  = (Ok (VObj 0), Cases.row_tracked).
Proof.
  apply (rowToEntity_add_rowToEntity Scenario.registry "Person" "Person"
           Scenario.row1 Scenario.row2 "" (VObj 0) Cases.row_loaded Cases.row_tracked).
  - reflexivity.
  - reflexivity.
  - unfold tracked_bound. vm_compute. lia.
  - reflexivity.
  - vm_compute. reflexivity.
  - vm_compute. reflexivity.
Defined.

(** ** The text of [CREATE TABLE] *)

Lemma append_cons c (s t : string) : String c s +:+ t = String c (s +:+ t).
Proof. reflexivity. Qed.

Lemma append_assoc_s (s1 s2 s3 : string) : (s1 +:+ s2) +:+ s3 = s1 +:+ s2 +:+ s3.
Proof.
  induction s1 as [|c s1 IH]; [reflexivity|]. now rewrite !append_cons, IH.
Qed.

Lemma length_append_s (s1 s2 : string) :
  String.length (s1 +:+ s2) = String.length s1 + String.length s2.
Proof.
  induction s1 as [|c s1 IH]; [reflexivity|].
  rewrite append_cons. cbn. now rewrite IH.
Qed.

Lemma substring_append_l (s1 s2 : string) :
  String.substring 0 (String.length s1) (s1 +:+ s2) = s1.
Proof.
  induction s1 as [|c s1 IH].
  - destruct s2; reflexivity.
  - rewrite append_cons. cbn. now rewrite IH.
Qed.

(** the loops of [createOneEntityTable] append each column followed by a
    comma and a space *)
Lemma rowDef_of_columns m :
  rowDef_of m
  = fold_left (fun s c => s +:+ c +:+ ", ") (column_defs m) EmptyString.
Proof.
  unfold rowDef_of, column_defs. rewrite fold_left_app.
  assert (H1 : forall l s,
    fold_left (fun s prop => s +:+ fst prop +:+ " " +:+ snd prop +:+ ", ") l s
    = fold_left (fun s c => s +:+ c +:+ ", ")
        (map (fun prop : string * string => fst prop +:+ " " +:+ snd prop) l) s).
  { induction l as [|p l IH]; intros s; cbn; [reflexivity|].
    rewrite IH. f_equal. now rewrite !append_assoc_s. }
  assert (H2 : forall l s,
    fold_left (fun s rel => s +:+ fst rel +:+ " VARCHAR(255), ") l s
    = fold_left (fun s c => s +:+ c +:+ ", ")
        (map (fun rel : string * string => fst rel +:+ " VARCHAR(255)") l) s).
  { induction l as [|p l IH]; intros s; cbn; [reflexivity|].
    rewrite IH. f_equal. now rewrite !append_assoc_s. }
  now rewrite H1, H2.
Qed.

Lemma fold_columns_concat cs : forall s,
  cs <> [] ->
  fold_left (fun s c => s +:+ c +:+ ", ") cs s
  = s +:+ String.concat ", " cs +:+ ", ".
Proof.
  induction cs as [|c cs IH]; intros s Hne; [congruence|].
  cbn [fold_left]. destruct cs as [|c' cs].
  - reflexivity.
  - rewrite IH by discriminate.
    change (String.concat ", " (c :: c' :: cs))
      with (c +:+ ", " +:+ String.concat ", " (c' :: cs)).
    now rewrite !append_assoc_s.
Qed.

(** X21: for an entity with at least one field or hasOne relation the
    statement of [schemaSync] lists, after the [id] column, the declared
    fields with their types and then one [VARCHAR(255)] column per hasOne
    relation, separated by commas: cutting the last two characters of the
    accumulated text removes exactly the trailing separator.  With no
    field and no relation nothing is cut and the column list ends in a
    dangling comma. *)
Theorem create_table_sql_columns m :
  (column_defs m <> [] ->
   create_table_sql m
   = "CREATE TABLE IF NOT EXISTS `" +:+ name m
     +:+ "` ( id VARCHAR(32) PRIMARY KEY, "
     +:+ String.concat ", " (column_defs m) +:+ ")")
  /\ (column_defs m = [] ->
      create_table_sql m
      = "CREATE TABLE IF NOT EXISTS `" +:+ name m
        +:+ "` ( id VARCHAR(32) PRIMARY KEY, )").
Proof.
  unfold create_table_sql. rewrite rowDef_of_columns. split.
  - intros Hne. rewrite fold_columns_concat by exact Hne.
    change (EmptyString +:+ ?x) with x.
    rewrite length_append_s. cbn [String.length].
    replace (String.length (String.concat ", " (column_defs m)) + 2 - 2)
      with (String.length (String.concat ", " (column_defs m))) by lia.
    now rewrite substring_append_l.
  - intros ->. reflexivity.
Qed.

(** ** A constructor made before its entity is defined *)


Lemma create_table_sql_columns_example :
  create_table_sql
    {| name := "Pet"; fields := [("name", "TEXT")]; hasMany := [];
       hasOne := [("owner", "Person")] |}
  = "CREATE TABLE IF NOT EXISTS `Pet` ( id VARCHAR(32) PRIMARY KEY, name TEXT, owner VARCHAR(255))".
Proof. reflexivity. Qed.

